(** * Expiring web cache with per-URL call counting (0x02-redis_basic/web.py)

    The module keeps no state of its own: every call talks to a Redis
    server through the module-level client [r] and, on a cache miss, to the
    network through [requests.get].  The development below embeds

    - the Python values the module handles ([str], [bytes], [None],
      truthiness, [int(...)], [bytes.decode('utf-8')], [assert]);
    - the Redis commands the module issues (INCR, GET, SETEX, DEL and, in
      its self-test, FLUSHALL), on a keyspace with per-key expiry and a
      millisecond clock; every command reaches the server, a lost
      connection is not part of the model;
    - [requests.get] as an environment that answers each URL with a response
      or an exception, after some elapsed time;
    - the functions of web.py and its self-test, in a state-and-exception
      monad that also records every command sent to the server and every
      HTTP request made.
*)

From Stdlib Require Import ZArith NArith Ascii String.
From Stdlib Require Import DecimalString DecimalPos DecimalZ.
From stdpp Require Import base option gmap strings list fin_maps.

Open Scope string_scope.
Open Scope list_scope.

(** ** Python values *)

(** A Python [str] is represented by its UTF-8 encoding and [bytes] by the
    byte sequence itself, both as [string] (a list of 8-bit characters).
    Encoding a [str] for the server is then the identity, and decoding
    [bytes] is a validity check that can fail. *)

Definition byte_in (lo hi : N) (c : ascii) : bool :=
  ((lo <=? N_of_ascii c) && (N_of_ascii c <=? hi))%N.

Definition continuation (c : ascii) : bool := byte_in 128 191 c.

(** Second byte of a three-byte sequence: no overlong forms (E0 80..9F) and
    no surrogates (ED A0..BF). *)
Definition lead3 (b0 b1 : ascii) : bool :=
  (byte_in 224 224 b0 && byte_in 160 191 b1)
  || (byte_in 225 236 b0 && continuation b1)
  || (byte_in 237 237 b0 && byte_in 128 159 b1)
  || (byte_in 238 239 b0 && continuation b1).

(** Second byte of a four-byte sequence: no overlong forms (F0 80..8F) and
    nothing above U+10FFFF (F4 90..). *)
Definition lead4 (b0 b1 : ascii) : bool :=
  (byte_in 240 240 b0 && byte_in 144 191 b1)
  || (byte_in 241 243 b0 && continuation b1)
  || (byte_in 244 244 b0 && byte_in 128 143 b1).

Fixpoint utf8_valid (s : string) : bool :=
  match s with
  | EmptyString => true
  | String b0 s1 =>
      if byte_in 0 127 b0 then utf8_valid s1 else
      match s1 with
      | EmptyString => false
      | String b1 s2 =>
          if byte_in 194 223 b0 then continuation b1 && utf8_valid s2 else
          match s2 with
          | EmptyString => false
          | String b2 s3 =>
              if lead3 b0 b1 then continuation b2 && utf8_valid s3 else
              match s3 with
              | EmptyString => false
              | String b3 s4 =>
                  lead4 b0 b1 && continuation b2 && continuation b3
                  && utf8_valid s4
              end
          end
      end
  end.

(** [bool(b)] for a [bytes] object: false exactly for [b''].  [None] is
    false as well; the callers below match on the optional value first. *)
Definition truthy (b : string) : bool :=
  match b with
  | EmptyString => false
  | String _ _ => true
  end.

(** Decimal spelling of an integer, as the server stores a counter. *)
Definition decimal (z : Z) : string := NilZero.string_of_int (Z.to_int z).

(** The integers of the server are signed 64-bit. *)
Definition int64_min : Z := -9223372036854775808.
Definition int64_max : Z := 9223372036854775807.

(** The server accepts a stored value as an integer only in its canonical
    decimal spelling (no sign [+], no leading zero, no blanks) and only
    within the signed 64-bit range. *)
Definition parse_integer (s : string) : option Z :=
  match NilZero.int_of_string s with
  | Some d =>
      let z := Z.of_int d in
      if String.eqb (decimal z) s
         && (int64_min <=? z)%Z && (z <=? int64_max)%Z
      then Some z else None
  | None => None
  end.

(** The characters [int(...)] looks at: blanks to strip, digits, and the
    underscore that may stand between two digits. *)
Definition is_blank (c : ascii) : bool :=
  byte_in 9 13 c || byte_in 32 32 c.

Definition is_digit (c : ascii) : bool := byte_in 48 57 c.

Fixpoint lstrip (s : string) : string :=
  match s with
  | EmptyString => EmptyString
  | String c s' => if is_blank c then lstrip s' else s
  end.

Fixpoint rstrip (s : string) : string :=
  match s with
  | EmptyString => EmptyString
  | String c s' =>
      match rstrip s' with
      | EmptyString => if is_blank c then EmptyString else String c EmptyString
      | r => String c r
      end
  end.

(** The digits of a literal, its underscores taken out: [after_digit]
    says whether the character before was a digit; an underscore is
    allowed only between two digits, and there is at least one digit. *)
Fixpoint literal_digits (after_digit : bool) (s : string) : option string :=
  match s with
  | EmptyString => if after_digit then Some EmptyString else None
  | String c s' =>
      if is_digit c then
        match literal_digits true s' with
        | Some digits => Some (String c digits)
        | None => None
        end
      else if Ascii.eqb c "_" then
        if after_digit then literal_digits false s' else None
      else None
  end.

(** The value of a decimal literal as [int(...)] reads it from [bytes]:
    blanks around it, an optional sign, digits with single underscores
    between them. *)
Definition int_literal (b : string) : option Z :=
  let s := rstrip (lstrip b) in
  let signed (negative : bool) (body : string) : option Z :=
    match literal_digits false body with
    | Some digits =>
        match NilZero.uint_of_string digits with
        | Some d => Some (if negative then - Z.of_uint d else Z.of_uint d)%Z
        | None => None
        end
    | None => None
    end in
  match s with
  | String c body =>
      if Ascii.eqb c "-" then signed true body
      else if Ascii.eqb c "+" then signed false body
      else signed false s
  | EmptyString => None
  end.

Fixpoint all_digits (s : string) : bool :=
  match s with
  | EmptyString => true
  | String c s' => is_digit c && all_digits s'
  end.

(** ** Exceptions, results and the world *)

Inductive request_failure :=
  | Timeout
  | ConnectionError
  | InvalidURL.

Inductive exn :=
  | ResponseError                          (* redis.exceptions.ResponseError *)
  | UnicodeDecodeError
  | ValueError
  | AssertionError
  | RequestException (cause : request_failure).

Inductive result (A : Type) :=
  | Ok (a : A)
  | Raise (e : exn).
Arguments Ok {A} a.
Arguments Raise {A} e.

(** What the module does to the outside: commands sent to the Redis server
    and HTTP requests sent to the network, in the order they are issued. *)
Inductive event :=
  | EIncr (key : string)
  | EGet (key : string)
  | ESetex (key : string) (seconds : N) (value : string)
  | EDelete (key : string)
  | EFlushall
  | EHttpGet (url : string).

(** A key of the server: its value and, when it has one, the instant (in
    milliseconds) at which it expires. *)
Record entry := Entry { value : string; expire_at : option N }.

Record world := World {
  clock : N;                      (* milliseconds *)
  store : gmap string entry;      (* the keyspace of the server *)
  trace : list event
}.

Definition emit (ev : event) (w : world) : world :=
  World (clock w) (store w) (trace w ++ [ev]).

Definition with_store (m : gmap string entry) (w : world) : world :=
  World (clock w) m (trace w).

(** Time passing between two calls ([time.sleep] in the self-test). *)
Definition sleep (ms : N) (w : world) : world :=
  World (clock w + ms) (store w) (trace w).

(** The state of the server after [r.flushall()], at instant [t]. *)
Definition flushed (t : N) : world := World t ∅ [].

Definition M (A : Type) : Type := world → result A * world.

Definition ret {A} (a : A) : M A := fun w => (Ok a, w).

Definition raise {A} (e : exn) : M A := fun w => (Raise e, w).

Definition bind {A B} (m : M A) (k : A → M B) : M B :=
  fun w =>
    match m w with
    | (Ok a, w') => k a w'
    | (Raise e, w') => (Raise e, w')
    end.

Notation "x <- m ;; k" := (bind m (fun x => k))
  (at level 90, m at level 60, right associativity).

(** [cached_content.decode('utf-8')] *)
Definition decode_utf8 (b : string) : M string :=
  if utf8_valid b then ret b else raise UnicodeDecodeError.

(** [int(count)] on the [bytes] read back from the server.  The limit
    some interpreters put on the number of digits (4300 by default) is far
    above anything the server stores and is not part of it. *)
Definition py_int (b : string) : M Z :=
  match int_literal b with
  | Some z => ret z
  | None => raise ValueError
  end.

(** ** The Redis client [r] *)

(** A key is expired once the clock is past its expiry instant. *)
Definition expired (t : N) (e : entry) : bool :=
  match expire_at e with
  | Some deadline => (deadline <? t)%N
  | None => false
  end.

(** The entry a command sees under [key] at instant [t]. *)
Definition live (t : N) (m : gmap string entry) (key : string) : option entry :=
  match m !! key with
  | Some e => if expired t e then None else Some e
  | None => None
  end.

(** [r.get(key)]: the value, or [None]. *)
Definition r_get (key : string) : M (option string) :=
  fun w =>
    (Ok (value <$> live (clock w) (store w) key), emit (EGet key) w).

(** [r.incr(key)]: a missing key counts as 0; the new value is stored in
    decimal and the key keeps the expiry it had.  A value that is not a
    64-bit integer, or that is the largest one so that the increment would
    overflow, is an error and the key is left alone. *)
Definition r_incr (key : string) : M Z :=
  fun w =>
    let w' := emit (EIncr key) w in
    match live (clock w) (store w) key with
    | None =>
        (Ok 1%Z, with_store (<[key := Entry (decimal 1) None]> (store w)) w')
    | Some e =>
        match parse_integer (value e) with
        | Some n =>
            if (n <? int64_max)%Z then
              (Ok (n + 1)%Z,
               with_store
                 (<[key := Entry (decimal (n + 1)) (expire_at e)]> (store w))
                 w')
            else (Raise ResponseError, w')
        | None => (Raise ResponseError, w')
        end
    end.

(** [r.setex(key, seconds, value)]: store the value, to expire [seconds]
    from now; a zero duration is refused. *)
Definition r_setex (key : string) (seconds : N) (v : string) : M bool :=
  fun w =>
    let w' := emit (ESetex key seconds v) w in
    if (seconds =? 0)%N then (Raise ResponseError, w')
    else
      (Ok true,
       with_store
         (<[key := Entry v (Some (clock w + seconds * 1000)%N)]> (store w)) w').

(** [r.delete(key)]: remove the key; answers how many keys were removed. *)
Definition r_delete (key : string) : M Z :=
  fun w =>
    (Ok (match live (clock w) (store w) key with Some _ => 1%Z | None => 0%Z end),
     with_store (delete key (store w)) (emit (EDelete key) w)).

(** [r.flushall()]: every key is removed. *)
Definition r_flushall : M bool :=
  fun w => (Ok true, World (clock w) ∅ (trace w ++ [EFlushall])).

(** ** The HTTP client *)

Record response := Response { status_code : Z; text : string }.

Inductive outcome :=
  | Responded (resp : response)
  | Failed (cause : request_failure).

(** What the network does with one GET: how long it takes and how it ends. *)
Record exchange := Exchange { elapsed : N; ending : outcome }.

(** [requests.get(url)] against the network [web].  Any status code is a
    response; only transport failures raise. *)
Definition requests_get (web : string → exchange) (url : string) : M response :=
  fun w =>
    let x := web url in
    let w' := World (clock w + elapsed x) (store w) (trace w ++ [EHttpGet url]) in
    match ending x with
    | Responded resp => (Ok resp, w')
    | Failed cause => (Raise (RequestException cause), w')
    end.

(** ** web.py *)

Definition count_key (url : string) : string := "count:" +:+ url.
Definition cache_key (url : string) : string := "cache:" +:+ url.

(** The decorator: [wrapper] increments the counter of its first argument
    and then runs the decorated method.  Calls are positional, as in the
    module's own self-test. *)
Definition count_calls {A} (method : string → M A) : string → M A :=
  fun url =>
    let key := count_key url in
    count <- r_incr key ;;
    method url.

(** The body of [get_page], before decoration. *)
Definition fetch_page (web : string → exchange) (url : string) : M string :=
  let cache_key := cache_key url in
  let count_key := count_key url in
  let fetch_and_cache : M string :=
    response <- requests_get web url ;;
    let html_content := text response in
    _ <- r_setex cache_key 10 html_content ;;
    ret html_content in
  cached_content <- r_get cache_key ;;
  match cached_content with
  | Some content =>
      if truthy content then decode_utf8 content else fetch_and_cache
  | None => fetch_and_cache
  end.

Definition get_page (web : string → exchange) : string → M string :=
  count_calls (fetch_page web).

Definition get_count (url : string) : M Z :=
  count <- r_get (count_key url) ;;
  match count with
  | Some c => if truthy c then py_int c else ret 0%Z
  | None => ret 0%Z
  end.

Definition reset_count (url : string) : M unit :=
  _ <- r_delete (count_key url) ;;
  ret tt.

(** [assert condition, message] and [time.sleep(seconds)]. *)
Definition py_assert (condition : bool) : M unit :=
  if condition then ret tt else raise AssertionError.

Definition time_sleep (seconds : N) : M unit :=
  fun w => (Ok tt, sleep (seconds * 1000) w).

Definition is_none {A} (o : option A) : bool :=
  match o with
  | None => true
  | Some _ => false
  end.

(** The self-test under [if __name__ == "__main__"]. *)
Definition main (web : string → exchange) : M unit :=
  _ <- r_flushall ;;
  let url := "http://google.com" in
  initial_count <- get_count url ;;
  _ <- py_assert (initial_count =? 0)%Z ;;
  _ <- get_page web url ;;
  count_after_first <- get_count url ;;
  _ <- py_assert (count_after_first =? 1)%Z ;;
  _ <- get_page web url ;;
  count_after_second <- get_count url ;;
  _ <- py_assert (count_after_second =? 2)%Z ;;
  cached_content <- r_get (cache_key url) ;;
  _ <- py_assert (negb (is_none cached_content)) ;;
  _ <- time_sleep 11 ;;
  expired_content <- r_get (cache_key url) ;;
  _ <- py_assert (is_none expired_content) ;;
  ret tt.

(** ** Observations used in the statements *)

(** The call counter of [url]: 0 while the key [count:url] does not exist,
    the 64-bit integer it holds otherwise.  Nothing in the module gives a
    counter an expiry; a key that has one, or whose value is not an integer
    of the server, is not
    read as a counter. *)
Definition counter (w : world) (url : string) : option Z :=
  match store w !! count_key url with
  | None => Some 0%Z
  | Some (Entry v None) => parse_integer v
  | Some (Entry _ (Some _)) => None
  end.

(** The cache entry for [url] that a lookup in [w] sees, if any. *)
Definition cache_entry (w : world) (url : string) : option entry :=
  live (clock w) (store w) (cache_key url).

(** The bytes [get_page] accepts from the cache: those of the entry a
    lookup sees, when they pass the test [if cached_content:]. *)
Definition served (w : world) (url : string) : option string :=
  match cache_entry w url with
  | Some e => if truthy (value e) then Some (value e) else None
  | None => None
  end.

(** The keyspace once INCR has taken the counter under [key] from [n] to
    [n + 1], and the world right after that INCR. *)
Definition counted (key : string) (n : Z) (m : gmap string entry) : gmap string entry :=
  <[key := Entry (decimal (n + 1)) None]> m.

Definition after_incr (key : string) (n : Z) (w : world) : world :=
  World (clock w) (counted key n (store w)) (trace w ++ [EIncr key]).

(** The commands and requests issued between two worlds. *)
Definition issued (w w' : world) (evs : list event) : Prop :=
  trace w' = trace w ++ evs.

(** A session with the module: calls of its three functions, each
    [get_page] against the network of its moment, and time passing. *)
Inductive action :=
  | GetPage (web : string → exchange) (url : string)
  | GetCount (url : string)
  | ResetCount (url : string)
  | Sleep (ms : N).

Definition step (w : world) (a : action) : world :=
  match a with
  | GetPage web url => (get_page web url w).2
  | GetCount url => (get_count url w).2
  | ResetCount url => (reset_count url w).2
  | Sleep ms => sleep ms w
  end.

Definition run (l : list action) (w : world) : world := foldl step w l.

Definition is_fetch_of (url : string) (a : action) : bool :=
  match a with
  | GetPage _ url' => String.eqb url url'
  | _ => false
  end.

Definition is_reset_of (url : string) (a : action) : bool :=
  match a with
  | ResetCount url' => String.eqb url url'
  | _ => false
  end.

(** How many times a session calls [get_page url], and how many times
    [reset_count url]. *)
Fixpoint fetches (url : string) (l : list action) : nat :=
  match l with
  | [] => 0
  | a :: l' => (if is_fetch_of url a then 1 else 0) + fetches url l'
  end.

Fixpoint resets (url : string) (l : list action) : nat :=
  match l with
  | [] => 0
  | a :: l' => (if is_reset_of url a then 1 else 0) + resets url l'
  end.

(** The specification's reading of a failed fetch: a transport failure or
    a status outside 200..299. *)
Definition spec_fetch_failure (x : exchange) : bool :=
  match ending x with
  | Failed _ => true
  | Responded resp =>
      negb ((200 <=? status_code resp)%Z && (status_code resp <? 300)%Z)
  end.

(** ** A test bench: one URL, a few networks, a few server states *)

Definition example_url : string := "http://example.test".

Definition web_hello (_ : string) : exchange :=
  Exchange 120 (Responded (Response 200 "hello")).

Definition web_moved (_ : string) : exchange :=
  Exchange 90 (Responded (Response 200 "welcome back")).

Definition web_not_found (_ : string) : exchange :=
  Exchange 80 (Responded (Response 404 "Not Found")).

Definition web_blank (_ : string) : exchange :=
  Exchange 80 (Responded (Response 200 "")).

Definition web_blank_error (_ : string) : exchange :=
  Exchange 80 (Responded (Response 503 "")).

Definition web_timeout (_ : string) : exchange :=
  Exchange 30000 (Failed Timeout).

Definition web_refused (_ : string) : exchange :=
  Exchange 2 (Failed ConnectionError).

(** The server once [get_page example_url] has run against each network,
    from a flushed server at instant 0. *)
Definition after_hello : world := (get_page web_hello example_url (flushed 0)).2.
Definition after_blank : world := (get_page web_blank example_url (flushed 0)).2.
Definition after_blank_error : world :=
  (get_page web_blank_error example_url (flushed 0)).2.

(** A session mixing a miss, a hit, an expired entry, a failed fetch, a
    read of the counter and a call for another URL. *)
Definition mixed_session : list action :=
  [ GetPage web_hello example_url;
    Sleep 3000;
    GetPage web_timeout example_url;
    Sleep 20000;
    GetPage web_refused example_url;
    GetCount example_url;
    GetPage web_not_found "http://other.test";
    ResetCount "http://other.test";
    GetPage web_blank example_url ].

(** A server on which somebody else stored text under the counter key of
    [example_url], and one that holds entries for two URLs. *)
Definition garbled_counter : world :=
  World 0 (<[count_key example_url := Entry "abc" None]> ∅) [].

Definition two_urls : world :=
  (get_page web_not_found "http://other.test" after_hello).2.

(** What every session with the module keeps true of the server: each
    counter is a readable, non-negative integer, and each cache entry is due
    to expire within ten seconds. *)
Definition well_kept (w : world) : Prop :=
  (∀ url, ∃ n, (0 ≤ n)%Z ∧ counter w url = Some n)
  ∧ (∀ url e,
       store w !! cache_key url = Some e →
       ∃ d, expire_at e = Some d ∧ (d ≤ clock w + 10 * 1000)%N).

(** Counting the commands and requests of a trace, and the calls of
    [get_page] in a session. *)
Definition is_incr (ev : event) : bool :=
  match ev with EIncr _ => true | _ => false end.

Definition is_http_get (ev : event) : bool :=
  match ev with EHttpGet _ => true | _ => false end.

Definition is_setex (ev : event) : bool :=
  match ev with ESetex _ _ _ => true | _ => false end.

Fixpoint how_many (p : event → bool) (evs : list event) : nat :=
  match evs with
  | [] => 0
  | ev :: evs' => (if p ev then 1 else 0) + how_many p evs'
  end.

Fixpoint calls (l : list action) : nat :=
  match l with
  | [] => 0
  | GetPage _ _ :: l' => S (calls l')
  | _ :: l' => calls l'
  end.

(** What goes on in a busy window after a fetch: further calls for the
    URL while the network is down, a counter read, nine seconds in all. *)
Definition busy_window : list action :=
  [ GetPage web_timeout example_url;
    Sleep 4000;
    GetPage web_refused example_url;
    GetCount example_url;
    Sleep 5000 ].

(** Byte strings for the checks of the decoder: U+00E9, U+20AC and
    U+1F600 in UTF-8, a lone continuation byte, an overlong NUL, a
    surrogate, and a code point past U+10FFFF. *)
Definition bytes_of (l : list N) : string :=
  fold_right (fun b s => String (ascii_of_N b) s) "" l.

(** A server on which somebody else cached a byte that is not UTF-8 for
    [example_url], with five seconds to live. *)
Definition poisoned : world :=
  World 0 (<[cache_key example_url := Entry (bytes_of [255%N]) (Some 5000%N)]> ∅) [].

(** ** Keys *)

Lemma count_key_not_cache_key url url' : count_key url ≠ cache_key url'.
Proof. unfold count_key, cache_key. cbv [String.append]. congruence. Qed.

Lemma count_key_inj url url' : count_key url = count_key url' → url = url'.
Proof. unfold count_key. cbv [String.append]. congruence. Qed.

Lemma cache_key_inj url url' : cache_key url = cache_key url' → url = url'.
Proof. unfold cache_key. cbv [String.append]. congruence. Qed.

(** ** Decimal counters *)

Lemma to_int_digits z :
  Z.to_int z ≠ Decimal.Pos Decimal.Nil ∧ Z.to_int z ≠ Decimal.Neg Decimal.Nil.
Proof.
  destruct z as [|p|p]; simpl; split; intros E; try discriminate;
    injection E as E; exact (DecimalPos.Unsigned.to_uint_nonnil p E).
Qed.

Lemma int_of_string_decimal z :
  NilZero.int_of_string (decimal z) = Some (Z.to_int z).
Proof.
  unfold decimal. destruct (to_int_digits z). apply NilZero.isi; assumption.
Qed.

Lemma parse_integer_decimal z :
  (int64_min ≤ z ≤ int64_max)%Z → parse_integer (decimal z) = Some z.
Proof.
  intros [Hlo Hhi].
  unfold parse_integer. rewrite int_of_string_decimal, DecimalZ.of_to.
  rewrite String.eqb_refl. simpl.
  rewrite (proj2 (Z.leb_le _ _) Hlo), (proj2 (Z.leb_le _ _) Hhi). reflexivity.
Qed.

Lemma parse_integer_inv s z :
  parse_integer s = Some z →
  s = decimal z ∧ (int64_min ≤ z ≤ int64_max)%Z.
Proof.
  unfold parse_integer.
  destruct (NilZero.int_of_string s) as [d|]; [|discriminate].
  destruct (String.eqb_spec (decimal (Z.of_int d)) s) as [E|]; [|discriminate].
  simpl.
  destruct (Z.leb_spec int64_min (Z.of_int d)) as [Hlo|]; [|discriminate].
  destruct (Z.leb_spec (Z.of_int d) int64_max) as [Hhi|]; [|discriminate].
  intros [= <-]. split; [symmetry; exact E|split; assumption].
Qed.

Lemma truthy_decimal z : truthy (decimal z) = true.
Proof.
  unfold decimal.
  destruct (Z.to_int z) as [u|u]; simpl; [|reflexivity].
  unfold NilZero.string_of_uint. destruct u; reflexivity.
Qed.

(** What [int(...)] makes of the spellings the server writes. *)

Lemma digit_not_blank c : is_digit c = true → is_blank c = false.
Proof.
  unfold is_digit, is_blank, byte_in.
  destruct (N.leb_spec 48 (N_of_ascii c)); [|discriminate].
  destruct (N.leb_spec (N_of_ascii c) 57); [|discriminate]. intros _.
  destruct (N.leb_spec 9 (N_of_ascii c)); simpl;
    destruct (N.leb_spec (N_of_ascii c) 13); simpl;
    destruct (N.leb_spec 32 (N_of_ascii c)); simpl;
    destruct (N.leb_spec (N_of_ascii c) 32); simpl;
    try reflexivity; lia.
Qed.

Lemma digit_not_sign c :
  is_digit c = true → Ascii.eqb c "-" = false ∧ Ascii.eqb c "+" = false.
Proof.
  intros Hc. split.
  - destruct (Ascii.eqb_spec c "-") as [->|]; [discriminate|reflexivity].
  - destruct (Ascii.eqb_spec c "+") as [->|]; [discriminate|reflexivity].
Qed.

Lemma uint_all_digits d : all_digits (NilEmpty.string_of_uint d) = true.
Proof. induction d; simpl; try rewrite IHd; reflexivity. Qed.

Lemma nilzero_all_digits d : all_digits (NilZero.string_of_uint d) = true.
Proof.
  unfold NilZero.string_of_uint.
  destruct d; try reflexivity; apply uint_all_digits.
Qed.

Lemma nilzero_nonempty d : NilZero.string_of_uint d ≠ "".
Proof. unfold NilZero.string_of_uint. destruct d; discriminate. Qed.

Lemma rstrip_digits s : all_digits s = true → rstrip s = s.
Proof.
  induction s as [|c s IH]; [reflexivity|]. simpl.
  intros [Hc Hs]%andb_prop. rewrite (IH Hs).
  destruct s; [|reflexivity]. rewrite (digit_not_blank c Hc). reflexivity.
Qed.

Lemma literal_digits_digits s :
  all_digits s = true → literal_digits true s = Some s.
Proof.
  induction s as [|c s IH]; [reflexivity|]. simpl.
  intros [Hc Hs]%andb_prop. rewrite Hc, (IH Hs). reflexivity.
Qed.

Lemma int_literal_digits s :
  all_digits s = true → s ≠ "" →
  rstrip (lstrip s) = s ∧ literal_digits false s = Some s.
Proof.
  intros Hs Hne. destruct s as [|c s]; [congruence|].
  pose proof Hs as Hs'. simpl in Hs'. apply andb_prop in Hs' as [Hc Hrest].
  split.
  - cbn [lstrip]. rewrite (digit_not_blank c Hc). apply rstrip_digits, Hs.
  - cbn [literal_digits]. rewrite Hc, (literal_digits_digits s Hrest).
    reflexivity.
Qed.

Lemma int_literal_decimal z : int_literal (decimal z) = Some z.
Proof.
  unfold decimal. destruct (to_int_digits z) as [Hpos Hneg].
  rewrite <- (DecimalZ.of_to z) at 2.
  destruct (Z.to_int z) as [d|d].
  - assert (Hd : d ≠ Decimal.Nil) by congruence.
    cbn [NilZero.string_of_int Z.of_int].
    destruct (int_literal_digits _ (nilzero_all_digits d) (nilzero_nonempty d))
      as [Hstrip Hlit].
    unfold int_literal. rewrite Hstrip.
    destruct (NilZero.string_of_uint d) as [|c u] eqn:Eu;
      [destruct (nilzero_nonempty d Eu)|].
    pose proof (nilzero_all_digits d) as Hall. rewrite Eu in Hall.
    simpl in Hall. apply andb_prop in Hall as [Hc _].
    destruct (digit_not_sign c Hc) as [-> ->].
    rewrite Hlit, <- Eu, (NilZero.usu d Hd). reflexivity.
  - assert (Hd : d ≠ Decimal.Nil) by congruence.
    cbn [NilZero.string_of_int Z.of_int].
    destruct (int_literal_digits _ (nilzero_all_digits d) (nilzero_nonempty d))
      as [Hstrip Hlit].
    unfold int_literal. cbn [lstrip].
    replace (is_blank "-") with false by reflexivity.
    cbn [rstrip]. rewrite (rstrip_digits _ (nilzero_all_digits d)).
    destruct (NilZero.string_of_uint d) as [|c u] eqn:Eu;
      [destruct (nilzero_nonempty d Eu)|].
    replace (Ascii.eqb "-" "-") with true by reflexivity.
    rewrite Hlit, <- Eu, (NilZero.usu d Hd). reflexivity.
Qed.

Lemma py_int_decimal z w : py_int (decimal z) w = (Ok z, w).
Proof. unfold py_int. rewrite int_literal_decimal. reflexivity. Qed.

(** ** The decoder on a few byte strings *)

Example utf8_valid_accepts :
  utf8_valid "plain ASCII" = true
  ∧ utf8_valid (bytes_of [195; 169]%N) = true
  ∧ utf8_valid (bytes_of [226; 130; 172]%N) = true
  ∧ utf8_valid (bytes_of [240; 159; 152; 128]%N) = true
  ∧ utf8_valid "" = true.
Proof. repeat split. Qed.

Example utf8_valid_rejects :
  utf8_valid (bytes_of [128]%N) = false
  ∧ utf8_valid (bytes_of [192; 128]%N) = false
  ∧ utf8_valid (bytes_of [237; 160; 128]%N) = false
  ∧ utf8_valid (bytes_of [244; 144; 128; 128]%N) = false
  ∧ utf8_valid (bytes_of [226; 130]%N) = false.
Proof. repeat split. Qed.

Example parse_integer_is_strict :
  parse_integer "41" = Some 41%Z
  ∧ parse_integer "-7" = Some (-7)%Z
  ∧ parse_integer "007" = None
  ∧ parse_integer "-0" = None
  ∧ parse_integer "" = None
  ∧ parse_integer "4 1" = None
  ∧ parse_integer "9223372036854775807" = Some int64_max
  ∧ parse_integer "9223372036854775808" = None
  ∧ parse_integer "-9223372036854775808" = Some int64_min
  ∧ parse_integer "-9223372036854775809" = None.
Proof. repeat split. Qed.

Example int_literal_reads :
  int_literal "41" = Some 41%Z
  ∧ int_literal "-7" = Some (-7)%Z
  ∧ int_literal "+7" = Some 7%Z
  ∧ int_literal "007" = Some 7%Z
  ∧ int_literal " 12 " = Some 12%Z
  ∧ int_literal "1_000" = Some 1000%Z
  ∧ int_literal "9223372036854775808" = Some 9223372036854775808%Z
  ∧ int_literal "" = None
  ∧ int_literal "-" = None
  ∧ int_literal "1__0" = None
  ∧ int_literal "_1" = None
  ∧ int_literal "1_" = None
  ∧ int_literal "- 1" = None
  ∧ int_literal "1 2" = None
  ∧ int_literal "abc" = None.
Proof. repeat split. Qed.

(** ** The keyspace under expiry *)

Lemma live_insert_eq t (m : gmap string entry) k e :
  live t (<[k := e]> m) k = if expired t e then None else Some e.
Proof. unfold live. rewrite lookup_insert_eq. reflexivity. Qed.

Lemma live_insert_ne t (m : gmap string entry) k k' e :
  k ≠ k' → live t (<[k := e]> m) k' = live t m k'.
Proof. intros Hk. unfold live. rewrite lookup_insert_ne by exact Hk. reflexivity. Qed.

Lemma live_absent t (m : gmap string entry) k : m !! k = None → live t m k = None.
Proof. intros Hk. unfold live. rewrite Hk. reflexivity. Qed.

Lemma expired_later t t' e : (t ≤ t')%N → expired t e = true → expired t' e = true.
Proof.
  unfold expired. destruct (expire_at e) as [d|]; [|discriminate].
  rewrite !N.ltb_lt. lia.
Qed.

(** Once invisible, a key stays invisible as long as nothing writes it. *)
Lemma live_none_later t t' (m : gmap string entry) k :
  (t ≤ t')%N → live t m k = None → live t' m k = None.
Proof.
  unfold live. intros Ht. destruct (m !! k) as [e|]; [|reflexivity].
  destruct (expired t e) eqn:E; [|discriminate].
  rewrite (expired_later t t' e Ht E). reflexivity.
Qed.

(** An entry written by SETEX at instant [t0] for [s] seconds is visible
    at [t] exactly when [t] is not past [t0 + 1000 s]. *)
Lemma expired_deadline t d v :
  expired t (Entry v (Some d)) = negb (t <=? d)%N.
Proof. unfold expired. simpl. rewrite N.ltb_antisym. reflexivity. Qed.

(** ** The commands, one by one *)

Lemma counter_live w url n :
  counter w url = Some n →
  live (clock w) (store w) (count_key url) = store w !! count_key url.
Proof.
  unfold counter, live. destruct (store w !! count_key url) as [[v [d|]]|];
    [discriminate|reflexivity|reflexivity].
Qed.

(** A counter is within the range of the server. *)
Lemma counter_range w url n :
  counter w url = Some n → (int64_min ≤ n ≤ int64_max)%Z.
Proof.
  unfold counter. destruct (store w !! count_key url) as [[v [d|]]|].
  - discriminate.
  - intros Hn. apply parse_integer_inv in Hn as [_ Hn]. exact Hn.
  - intros [= <-]. unfold int64_min, int64_max. lia.
Qed.

(** Below the ceiling INCR takes the counter one up. *)
Lemma r_incr_counter url n w :
  counter w url = Some n →
  (n < int64_max)%Z →
  r_incr (count_key url) w = (Ok (n + 1)%Z, after_incr (count_key url) n w).
Proof.
  intros Hn Hroom. unfold r_incr. rewrite (counter_live w url n Hn).
  unfold counter in Hn.
  destruct (store w !! count_key url) as [[v [d|]]|]; simpl in *.
  - discriminate.
  - rewrite Hn, (proj2 (Z.ltb_lt _ _) Hroom). reflexivity.
  - injection Hn as <-. reflexivity.
Qed.

(** At the ceiling INCR is refused and nothing changes. *)
Lemma r_incr_ceiling url w :
  counter w url = Some int64_max →
  r_incr (count_key url) w
  = (Raise ResponseError, emit (EIncr (count_key url)) w).
Proof.
  intros Hn. unfold r_incr. rewrite (counter_live w url _ Hn).
  unfold counter in Hn.
  destruct (store w !! count_key url) as [[v [d|]]|]; simpl in *.
  - discriminate.
  - rewrite Hn. reflexivity.
  - discriminate.
Qed.

Lemma counter_after_incr url n w :
  counter w url = Some n →
  (n < int64_max)%Z →
  counter (after_incr (count_key url) n w) url = Some (n + 1)%Z.
Proof.
  intros Hn Hroom. pose proof (counter_range w url n Hn) as Hrange.
  unfold counter, after_incr, counted. simpl. rewrite lookup_insert_eq.
  apply parse_integer_decimal. lia.
Qed.

Lemma get_count_counter url n w :
  counter w url = Some n →
  get_count url w = (Ok n, emit (EGet (count_key url)) w).
Proof.
  intros Hn. unfold get_count, bind, r_get.
  rewrite (counter_live w url n Hn). unfold counter in Hn.
  destruct (store w !! count_key url) as [[v [d|]]|]; simpl in *.
  - discriminate.
  - apply parse_integer_inv in Hn as [-> _].
    rewrite truthy_decimal. apply py_int_decimal.
  - injection Hn as <-. reflexivity.
Qed.

Lemma served_hit w url e :
  cache_entry w url = Some e → truthy (value e) = true →
  served w url = Some (value e).
Proof. intros He Ht. unfold served. rewrite He, Ht. reflexivity. Qed.

Lemma served_absent w url : cache_entry w url = None → served w url = None.
Proof. intros He. unfold served. rewrite He. reflexivity. Qed.

Lemma served_empty w url e :
  cache_entry w url = Some e → value e = "" → served w url = None.
Proof. intros He Hv. unfold served. rewrite He, Hv. reflexivity. Qed.

(** The three ways through the body of [get_page]. *)

Lemma fetch_page_hit web url w b :
  served w url = Some b →
  fetch_page web url w =
    (if utf8_valid b then Ok b else Raise UnicodeDecodeError,
     emit (EGet (cache_key url)) w).
Proof.
  unfold served, cache_entry, fetch_page, bind, r_get. intros Hs.
  destruct (live (clock w) (store w) (cache_key url)) as [e|]; [|discriminate].
  simpl. destruct (truthy (value e)); [|discriminate].
  injection Hs as <-. unfold decode_utf8.
  destruct (utf8_valid (value e)); reflexivity.
Qed.

Lemma fetch_page_miss_response web url w resp :
  served w url = None →
  ending (web url) = Responded resp →
  fetch_page web url w =
    (Ok (text resp),
     World (clock w + elapsed (web url))
           (<[cache_key url :=
                Entry (text resp)
                      (Some (clock w + elapsed (web url) + 10 * 1000)%N)]>
              (store w))
           (trace w ++ [EGet (cache_key url); EHttpGet url;
                        ESetex (cache_key url) 10 (text resp)])).
Proof.
  unfold served, cache_entry, fetch_page, bind, r_get, requests_get, r_setex.
  intros Hs Hx.
  destruct (live (clock w) (store w) (cache_key url)) as [e|]; simpl;
    [destruct (truthy (value e)); [discriminate|]|];
    rewrite Hx; simpl; unfold with_store, emit, ret; simpl;
    rewrite <- !app_assoc; reflexivity.
Qed.

Lemma fetch_page_miss_failure web url w cause :
  served w url = None →
  ending (web url) = Failed cause →
  fetch_page web url w =
    (Raise (RequestException cause),
     World (clock w + elapsed (web url)) (store w)
           (trace w ++ [EGet (cache_key url); EHttpGet url])).
Proof.
  unfold served, cache_entry, fetch_page, bind, r_get, requests_get.
  intros Hs Hx.
  destruct (live (clock w) (store w) (cache_key url)) as [e|]; simpl;
    [destruct (truthy (value e)); [discriminate|]|];
    rewrite Hx; simpl; rewrite <- !app_assoc; reflexivity.
Qed.

(** The decorator runs INCR and hands over to the body. *)
Lemma get_page_counter web url n w :
  counter w url = Some n →
  (n < int64_max)%Z →
  get_page web url w = fetch_page web url (after_incr (count_key url) n w).
Proof.
  intros Hn Hroom. unfold get_page, count_calls, bind.
  rewrite (r_incr_counter url n w Hn Hroom). reflexivity.
Qed.

(** A counter at the ceiling stops the call in INCR as well: nothing is
    counted, the cache is not looked at, no request is made. *)
Lemma get_page_at_the_ceiling web url w :
  counter w url = Some int64_max →
  get_page web url w = (Raise ResponseError, emit (EIncr (count_key url)) w).
Proof.
  intros Hn. unfold get_page, count_calls, bind.
  rewrite (r_incr_ceiling url w Hn). reflexivity.
Qed.

(** A counter key that does not hold an integer stops the call in INCR:
    the body never runs and the keyspace is as it was. *)
Lemma get_page_not_an_integer web url w e :
  live (clock w) (store w) (count_key url) = Some e →
  parse_integer (value e) = None →
  get_page web url w = (Raise ResponseError, emit (EIncr (count_key url)) w).
Proof.
  intros He Hv. unfold get_page, count_calls, bind, r_incr.
  rewrite He, Hv. reflexivity.
Qed.

Lemma cache_entry_after_incr url url' n w :
  cache_entry (after_incr (count_key url') n w) url = cache_entry w url.
Proof.
  unfold cache_entry, after_incr, counted. simpl.
  apply live_insert_ne, count_key_not_cache_key.
Qed.

Lemma served_after_incr url url' n w :
  served (after_incr (count_key url') n w) url = served w url.
Proof. unfold served. rewrite cache_entry_after_incr. reflexivity. Qed.

(** ** The three outcomes of [get_page] on a counter that reads [n] *)

Section GetPage.
Variable web : string → exchange.
Variables (url : string) (w : world) (n : Z).
Hypothesis Hcounter : counter w url = Some n.
Hypothesis Hroom : (n < int64_max)%Z.

Lemma get_page_hit b :
  served w url = Some b →
  get_page web url w =
    (if utf8_valid b then Ok b else Raise UnicodeDecodeError,
     World (clock w) (counted (count_key url) n (store w))
           (trace w ++ [EIncr (count_key url); EGet (cache_key url)])).
Proof.
  intros Hs. rewrite (get_page_counter web url n w Hcounter Hroom).
  rewrite (fetch_page_hit web url _ b) by (rewrite served_after_incr; exact Hs).
  unfold emit, after_incr. simpl. rewrite <- app_assoc. reflexivity.
Qed.

Lemma get_page_miss_response resp :
  served w url = None →
  ending (web url) = Responded resp →
  get_page web url w =
    (Ok (text resp),
     World (clock w + elapsed (web url))
           (<[cache_key url :=
                Entry (text resp)
                      (Some (clock w + elapsed (web url) + 10 * 1000)%N)]>
              (counted (count_key url) n (store w)))
           (trace w ++ [EIncr (count_key url); EGet (cache_key url);
                        EHttpGet url;
                        ESetex (cache_key url) 10 (text resp)])).
Proof.
  intros Hs Hx. rewrite (get_page_counter web url n w Hcounter Hroom).
  rewrite (fetch_page_miss_response web url _ resp)
    by (rewrite ?served_after_incr; assumption).
  unfold after_incr. simpl. rewrite <- app_assoc. reflexivity.
Qed.

Lemma get_page_miss_failure cause :
  served w url = None →
  ending (web url) = Failed cause →
  get_page web url w =
    (Raise (RequestException cause),
     World (clock w + elapsed (web url)) (counted (count_key url) n (store w))
           (trace w ++ [EIncr (count_key url); EGet (cache_key url);
                        EHttpGet url])).
Proof.
  intros Hs Hx. rewrite (get_page_counter web url n w Hcounter Hroom).
  rewrite (fetch_page_miss_failure web url _ cause)
    by (rewrite ?served_after_incr; assumption).
  unfold after_incr. simpl. rewrite <- app_assoc. reflexivity.
Qed.

(** Whatever the outcome, the keyspace after the call is the one INCR
    left, with at most the cache entry of [url] written over it. *)
Lemma get_page_store_count_key :
  store (get_page web url w).2 !! count_key url
  = Some (Entry (decimal (n + 1)) None).
Proof.
  destruct (served w url) as [b|] eqn:Hs.
  - rewrite (get_page_hit b Hs). simpl. apply lookup_insert_eq.
  - destruct (ending (web url)) as [resp|cause] eqn:Hx.
    + rewrite (get_page_miss_response resp Hs Hx). simpl.
      rewrite lookup_insert_ne by (apply not_eq_sym, count_key_not_cache_key).
      apply lookup_insert_eq.
    + rewrite (get_page_miss_failure cause Hs Hx). simpl.
      apply lookup_insert_eq.
Qed.

Lemma get_page_counter_next : counter (get_page web url w).2 url = Some (n + 1)%Z.
Proof.
  pose proof (counter_range w url n Hcounter) as Hrange.
  unfold counter. rewrite get_page_store_count_key.
  apply parse_integer_decimal. lia.
Qed.
End GetPage.

(** ** Counting calls *)

(** C1.  A call of [get_page url] on a counter below the ceiling of the
    server first sends INCR for [count:url], once, and only then looks into
    the cache; afterwards the counter reads one more than before, whatever
    the call went on to do: hit, miss, or an exception raised further
    down. *)
Theorem get_page_counts_the_call_first web url w n :
  counter w url = Some n →
  (n < int64_max)%Z →
  ∃ rest,
    issued w (get_page web url w).2
           (EIncr (count_key url) :: EGet (cache_key url) :: rest)
    ∧ (EIncr (count_key url) ∉ EGet (cache_key url) :: rest)
    ∧ (get_count url w).1 = Ok n
    ∧ (get_count url (get_page web url w).2).1 = Ok (n + 1)%Z.
Proof.
  intros Hn Hroom.
  assert (Hev : ∃ rest,
    issued w (get_page web url w).2
           (EIncr (count_key url) :: EGet (cache_key url) :: rest)
    ∧ (EIncr (count_key url) ∉ EGet (cache_key url) :: rest)).
  { destruct (served w url) as [b|] eqn:Hs;
      [|destruct (ending (web url)) as [resp|cause] eqn:Hx].
    - exists []. rewrite (get_page_hit web url w n Hn Hroom b Hs).
      split; [reflexivity|].
      rewrite !not_elem_of_cons. repeat split; try discriminate.
      apply not_elem_of_nil.
    - exists [EHttpGet url; ESetex (cache_key url) 10 (text resp)].
      rewrite (get_page_miss_response web url w n Hn Hroom resp Hs Hx).
      split; [reflexivity|].
      rewrite !not_elem_of_cons. repeat split; try discriminate.
      apply not_elem_of_nil.
    - exists [EHttpGet url].
      rewrite (get_page_miss_failure web url w n Hn Hroom cause Hs Hx).
      split; [reflexivity|].
      rewrite !not_elem_of_cons. repeat split; try discriminate.
      apply not_elem_of_nil. }
  destruct Hev as (rest & Hissued & Honce). exists rest.
  split; [exact Hissued|]. split; [exact Honce|].
  rewrite (get_count_counter url n w Hn).
  rewrite (get_count_counter url (n + 1)); [split; reflexivity|].
  apply get_page_counter_next; assumption.
Qed.

Lemma get_page_counts_the_call_first_witness :
  counter after_hello example_url = Some 1%Z
  ∧ ∃ rest,
      issued after_hello (get_page web_timeout example_url after_hello).2
             (EIncr (count_key example_url)
                :: EGet (cache_key example_url) :: rest)
      ∧ (EIncr (count_key example_url) ∉ EGet (cache_key example_url) :: rest)
      ∧ (get_count example_url after_hello).1 = Ok 1%Z
      ∧ (get_count example_url
           (get_page web_timeout example_url after_hello).2).1 = Ok (1 + 1)%Z.
Proof.
  split; [reflexivity|].
  apply (get_page_counts_the_call_first web_timeout example_url after_hello 1);
    reflexivity.
Defined.

(** ** Cache misses *)

(** C4.  When no entry for [url] is visible at lookup time and the network
    answers, [get_page] (its counter below the ceiling) sends exactly one
    HTTP GET for [url], then one SETEX of the response body under
    [cache:url] for 10 seconds, and returns that body; the entry is visible
    for the next 10 000 milliseconds and not beyond. *)
Theorem get_page_miss_fetches_and_caches web url w n resp :
  counter w url = Some n →
  (n < int64_max)%Z →
  cache_entry w url = None →
  ending (web url) = Responded resp →
  ∃ w',
    get_page web url w = (Ok (text resp), w')
    ∧ issued w w' [EIncr (count_key url); EGet (cache_key url);
                   EHttpGet url; ESetex (cache_key url) 10 (text resp)]
    ∧ store w' !! cache_key url
      = Some (Entry (text resp) (Some (clock w' + 10 * 1000)%N))
    ∧ ∀ ms,
        cache_entry (sleep ms w') url
        = if (ms <=? 10 * 1000)%N
          then Some (Entry (text resp) (Some (clock w' + 10 * 1000)%N))
          else None.
Proof.
  intros Hn Hroom He Hx. eexists. split.
  { apply (get_page_miss_response web url w n Hn Hroom resp);
      [apply served_absent, He | exact Hx]. }
  split; [reflexivity|]. split; [apply lookup_insert_eq|].
  intros ms. unfold cache_entry, sleep. simpl.
  rewrite live_insert_eq, expired_deadline.
  destruct (N.leb_spec ms (10 * 1000)) as [Hle|Hgt].
  - replace (_ <=? _)%N with true; [reflexivity|].
    symmetry. apply N.leb_le. lia.
  - replace (_ <=? _)%N with false; [reflexivity|].
    symmetry. apply N.leb_gt. lia.
Qed.

Lemma get_page_miss_fetches_and_caches_witness :
  ∃ w',
    get_page web_not_found example_url (flushed 7) = (Ok "Not Found", w')
    ∧ issued (flushed 7) w'
        [EIncr (count_key example_url); EGet (cache_key example_url);
         EHttpGet example_url;
         ESetex (cache_key example_url) 10 "Not Found"]
    ∧ store w' !! cache_key example_url
      = Some (Entry "Not Found" (Some (clock w' + 10 * 1000)%N))
    ∧ ∀ ms,
        cache_entry (sleep ms w') example_url
        = if (ms <=? 10 * 1000)%N
          then Some (Entry "Not Found" (Some (clock w' + 10 * 1000)%N))
          else None.
Proof.
  apply (get_page_miss_fetches_and_caches
           web_not_found example_url (flushed 7) 0
           (Response 404 "Not Found"));
    reflexivity.
Defined.

(** C9.  An entry whose value is the empty byte string is visible to the
    lookup and still taken for a miss: [get_page] (its counter below the
    ceiling) goes to the network and, when it answers, writes the new body
    over the entry. *)
Theorem empty_cached_body_is_refetched web url w n e :
  counter w url = Some n →
  (n < int64_max)%Z →
  cache_entry w url = Some e →
  value e = "" →
  ∃ rest,
    issued w (get_page web url w).2
           (EIncr (count_key url) :: EGet (cache_key url)
              :: EHttpGet url :: rest)
    ∧ ∀ resp,
        ending (web url) = Responded resp →
        (get_page web url w).1 = Ok (text resp)
        ∧ rest = [ESetex (cache_key url) 10 (text resp)]
        ∧ store (get_page web url w).2 !! cache_key url
          = Some (Entry (text resp)
                        (Some (clock w + elapsed (web url) + 10 * 1000)%N)).
Proof.
  intros Hn Hroom He Hv.
  pose proof (served_empty w url e He Hv) as Hs.
  destruct (ending (web url)) as [resp|cause] eqn:Hx.
  - exists [ESetex (cache_key url) 10 (text resp)].
    rewrite (get_page_miss_response web url w n Hn Hroom resp Hs Hx).
    split; [reflexivity|]. intros resp' [= <-].
    repeat split. apply lookup_insert_eq.
  - exists []. rewrite (get_page_miss_failure web url w n Hn Hroom cause Hs Hx).
    split; [reflexivity|]. intros resp' [=].
Qed.

Lemma empty_cached_body_is_refetched_witness :
  cache_entry after_blank example_url = Some (Entry "" (Some 10080%N))
  ∧ ∃ rest,
      issued after_blank (get_page web_moved example_url after_blank).2
             (EIncr (count_key example_url) :: EGet (cache_key example_url)
                :: EHttpGet example_url :: rest)
      ∧ ∀ resp,
          ending (web_moved example_url) = Responded resp →
          (get_page web_moved example_url after_blank).1 = Ok (text resp)
          ∧ rest = [ESetex (cache_key example_url) 10 (text resp)]
          ∧ store (get_page web_moved example_url after_blank).2
              !! cache_key example_url
            = Some (Entry (text resp)
                      (Some (clock after_blank
                             + elapsed (web_moved example_url)
                             + 10 * 1000)%N)).
Proof.
  split; [reflexivity|].
  apply (empty_cached_body_is_refetched
           web_moved example_url after_blank 1 (Entry "" (Some 10080%N)));
    reflexivity.
Defined.

(** ** Failures *)

(** C8.  When a call of [get_page url] on a counter below the ceiling
    raises, the keyspace it leaves is the one it found with the counter of
    [url] taken one up, and nothing else changed: no cache entry written,
    none removed. *)
Theorem failed_get_page_only_counts web url w n e w' :
  counter w url = Some n →
  (n < int64_max)%Z →
  get_page web url w = (Raise e, w') →
  store w' = <[count_key url := Entry (decimal (n + 1)) None]> (store w)
  ∧ (get_count url w').1 = Ok (n + 1)%Z.
Proof.
  intros Hn Hroom Hcall.
  assert (Hstore :
    store w' = <[count_key url := Entry (decimal (n + 1)) None]> (store w)).
  { destruct (served w url) as [b|] eqn:Hs.
    - rewrite (get_page_hit web url w n Hn Hroom b Hs) in Hcall.
      injection Hcall as _ <-. reflexivity.
    - destruct (ending (web url)) as [resp|cause] eqn:Hx.
      + rewrite (get_page_miss_response web url w n Hn Hroom resp Hs Hx) in Hcall.
        discriminate.
      + rewrite (get_page_miss_failure web url w n Hn Hroom cause Hs Hx) in Hcall.
        injection Hcall as _ <-. reflexivity. }
  split; [exact Hstore|].
  pose proof (counter_range w url n Hn) as Hrange.
  rewrite (get_count_counter url (n + 1)); [reflexivity|].
  unfold counter. rewrite Hstore, lookup_insert_eq.
  apply parse_integer_decimal. lia.
Qed.

Lemma failed_get_page_only_counts_witness :
  store (get_page web_timeout example_url (sleep 60000 after_hello)).2
  = <[count_key example_url := Entry (decimal (1 + 1)) None]>
      (store (sleep 60000 after_hello))
  ∧ (get_count example_url
       (get_page web_timeout example_url (sleep 60000 after_hello)).2).1
    = Ok (1 + 1)%Z.
Proof.
  apply (failed_get_page_only_counts
           web_timeout example_url (sleep 60000 after_hello) 1
           (RequestException Timeout));
    reflexivity.
Defined.

(** C5, as the specification words it, fails on a status outside 200..299:
    on a miss the body of a 404 answer is returned like any other. *)
Lemma not_found_body_is_returned :
  spec_fetch_failure (web_not_found example_url) = true
  ∧ cache_entry (flushed 0) example_url = None
  ∧ (get_page web_not_found example_url (flushed 0)).1 = Ok "Not Found".
Proof. repeat split. Qed.

(** C5, amended.  On a miss, with the counter below the ceiling, a
    transport failure of the HTTP GET (timeout, refused connection) makes
    [get_page] raise the exception of the client with its cause and return
    no body; a response is returned whatever its status code. *)
Theorem get_page_raises_on_transport_failure_only web url w n :
  counter w url = Some n →
  (n < int64_max)%Z →
  served w url = None →
  (get_page web url w).1
  = match ending (web url) with
    | Failed cause => Raise (RequestException cause)
    | Responded resp => Ok (text resp)
    end.
Proof.
  intros Hn Hroom Hs. destruct (ending (web url)) as [resp|cause] eqn:Hx.
  - rewrite (get_page_miss_response web url w n Hn Hroom resp Hs Hx). reflexivity.
  - rewrite (get_page_miss_failure web url w n Hn Hroom cause Hs Hx). reflexivity.
Qed.

Lemma get_page_raises_on_transport_failure_only_witness :
  (get_page web_refused example_url after_blank_error).1
  = match ending (web_refused example_url) with
    | Failed cause => Raise (RequestException cause)
    | Responded resp => Ok (text resp)
    end.
Proof.
  apply (get_page_raises_on_transport_failure_only
           web_refused example_url after_blank_error 1);
    reflexivity.
Defined.

(** ** Sessions *)

Lemma counter_store w w' url :
  store w' !! count_key url = store w !! count_key url →
  counter w' url = counter w url.
Proof. intros E. unfold counter. rewrite E. reflexivity. Qed.

Lemma fetch_page_store_other web url w k :
  k ≠ cache_key url → store (fetch_page web url w).2 !! k = store w !! k.
Proof.
  intros Hk. unfold fetch_page, bind, r_get, requests_get, r_setex, decode_utf8.
  destruct (live (clock w) (store w) (cache_key url)) as [e|]; simpl;
    [destruct (truthy (value e)); [destruct (utf8_valid (value e)); reflexivity|]|];
    destruct (ending (web url)); simpl; try reflexivity;
    apply lookup_insert_ne; congruence.
Qed.

(** A call for one URL leaves the counters of all others alone, also when
    it raises, in INCR or later. *)
Lemma get_page_store_frame web url w k :
  k ≠ count_key url → k ≠ cache_key url →
  store (get_page web url w).2 !! k = store w !! k.
Proof.
  intros Hc Hk. unfold get_page, count_calls, bind, r_incr.
  destruct (live (clock w) (store w) (count_key url)) as [e|];
    [destruct (parse_integer (value e)) as [n|]; [|reflexivity];
     destruct (n <? int64_max)%Z; [|reflexivity]|];
    rewrite fetch_page_store_other by exact Hk; simpl;
    apply lookup_insert_ne; congruence.
Qed.

Lemma get_count_store url w : store (get_count url w).2 = store w.
Proof.
  unfold get_count, bind, r_get, py_int. simpl.
  destruct (live (clock w) (store w) (count_key url)) as [e|]; simpl;
    [|reflexivity].
  destruct (truthy (value e)); [|reflexivity].
  destruct (int_literal (value e)); reflexivity.
Qed.

Lemma reset_count_store url w :
  store (reset_count url w).2 = delete (count_key url) (store w).
Proof. reflexivity. Qed.

Lemma run_cons a l w : run (a :: l) w = run l (step w a).
Proof. reflexivity. Qed.

(** What one action does to the counter of [url]: a reset takes it to 0,
    a call takes it one up, unless it stands at the ceiling, where it
    stays. *)
Lemma step_counter url a w n :
  counter w url = Some n →
  counter (step w a) url
  = Some (if is_reset_of url a then 0
          else if is_fetch_of url a
               then (if (n <? int64_max)%Z then n + 1 else n)
               else n)%Z.
Proof.
  intros Hn.
  destruct a as [web url'|url'|url'|ms]; cbn [step is_reset_of is_fetch_of].
  - destruct (String.eqb_spec url url') as [<-|Hne].
    + destruct (Z.ltb_spec n int64_max) as [Hroom|Hfull].
      * apply get_page_counter_next; assumption.
      * pose proof (counter_range w url n Hn) as Hrange.
        assert (n = int64_max) as -> by lia.
        rewrite (get_page_at_the_ceiling web url w Hn). exact Hn.
    + rewrite <- Hn. apply counter_store, get_page_store_frame.
      * intros E. apply count_key_inj in E. congruence.
      * apply count_key_not_cache_key.
  - rewrite <- Hn. apply counter_store. rewrite get_count_store. reflexivity.
  - destruct (String.eqb_spec url url') as [<-|Hne].
    + unfold counter. rewrite reset_count_store, lookup_delete_eq. reflexivity.
    + rewrite <- Hn. apply counter_store.
      rewrite reset_count_store. apply lookup_delete_ne.
      intros E. apply count_key_inj in E. congruence.
  - exact Hn.
Qed.

Lemma run_counter url l : ∀ w n,
  counter w url = Some n →
  resets url l = 0 →
  (n + Z.of_nat (fetches url l) ≤ int64_max)%Z →
  counter (run l w) url = Some (n + Z.of_nat (fetches url l))%Z.
Proof.
  induction l as [|a l IH]; intros w n Hn Hr Hmax;
    cbn [run foldl fetches resets] in *.
  - cbn. rewrite Z.add_0_r. exact Hn.
  - destruct (is_reset_of url a) eqn:Ea; [discriminate|].
    pose proof (step_counter url a w n Hn) as Hs. rewrite Ea in Hs.
    change (foldl step (step w a) l) with (run l (step w a)).
    destruct (is_fetch_of url a).
    + replace (n <? int64_max)%Z with true in Hs
        by (symmetry; apply Z.ltb_lt; lia).
      rewrite (IH _ _ Hs Hr) by lia. f_equal. lia.
    + rewrite (IH _ _ Hs Hr) by lia. f_equal.
Qed.

(** A readable counter stays readable, and after a flush every counter is:
    the hypothesis the statements above put on the counter holds throughout
    any session with the module. *)
Lemma run_counter_readable url l : ∀ w n,
  counter w url = Some n → ∃ n', counter (run l w) url = Some n'.
Proof.
  induction l as [|a l IH]; intros w n Hn; simpl.
  - eauto.
  - eapply IH, step_counter, Hn.
Qed.

Lemma flushed_counter t url : counter (flushed t) url = Some 0%Z.
Proof. reflexivity. Qed.

Lemma session_counter_readable t l url :
  ∃ n, counter (run l (flushed t)) url = Some n.
Proof. apply (run_counter_readable url l (flushed t) 0), flushed_counter. Qed.

(** C2.  While [count:url] does not exist, [get_count url] reads 0; and
    after a session that started there and never reset [url], it reads the
    number of calls [get_page url] the session made, whatever they met:
    hits, misses, expired entries, failed fetches, calls for other URLs;
    this as far as the server counts, that is up to 2^63 - 1 calls. *)
Theorem get_count_counts_the_calls url w l :
  store w !! count_key url = None →
  resets url l = 0 →
  (Z.of_nat (fetches url l) ≤ int64_max)%Z →
  (get_count url w).1 = Ok 0%Z
  ∧ (get_count url (run l w)).1 = Ok (Z.of_nat (fetches url l)).
Proof.
  intros Hw Hr Hmax.
  assert (H0 : counter w url = Some 0%Z) by (unfold counter; rewrite Hw; reflexivity).
  split.
  - rewrite (get_count_counter url 0 w H0). reflexivity.
  - rewrite (get_count_counter url (Z.of_nat (fetches url l))); [reflexivity|].
    apply (run_counter url l w 0 H0 Hr). lia.
Qed.

Lemma get_count_counts_the_calls_witness :
  fetches example_url mixed_session = 4
  ∧ (get_count example_url (flushed 0)).1 = Ok 0%Z
  ∧ (get_count example_url (run mixed_session (flushed 0))).1
    = Ok (Z.of_nat (fetches example_url mixed_session)).
Proof.
  split; [reflexivity|].
  apply (get_count_counts_the_calls example_url (flushed 0) mixed_session);
    [reflexivity | reflexivity | vm_compute; discriminate].
Defined.

(** C6.  [reset_count url] sends one DEL and leaves no key [count:url] at
    all: [get_count] then reads 0 and the next [get_page] makes it 1;
    resetting twice is resetting once; and where there was no counter the
    keyspace is unchanged and nothing is raised. *)
Theorem reset_count_deletes_the_counter url w :
  reset_count url w
  = (Ok tt, World (clock w) (delete (count_key url) (store w))
                  (trace w ++ [EDelete (count_key url)]))
  ∧ store (reset_count url w).2 !! count_key url = None
  ∧ (get_count url (reset_count url w).2).1 = Ok 0%Z
  ∧ (∀ web ms,
       (get_count url
          (get_page web url (sleep ms (reset_count url w).2)).2).1 = Ok 1%Z)
  ∧ store (reset_count url (reset_count url w).2).2
    = store (reset_count url w).2
  ∧ (store w !! count_key url = None →
     store (reset_count url w).2 = store w).
Proof.
  assert (H0 : counter (reset_count url w).2 url = Some 0%Z).
  { unfold counter. rewrite reset_count_store, lookup_delete_eq. reflexivity. }
  split; [reflexivity|].
  split; [rewrite reset_count_store; apply lookup_delete_eq|].
  split; [rewrite (get_count_counter url 0 _ H0); reflexivity|].
  split.
  { intros web ms.
    rewrite (get_count_counter url (0 + 1)); [reflexivity|].
    apply get_page_counter_next; [exact H0 | reflexivity]. }
  split.
  - rewrite !reset_count_store. apply delete_delete_eq.
  - intros Hw. rewrite reset_count_store. apply delete_id, Hw.
Qed.

Lemma reset_count_deletes_the_counter_witness :
  store (flushed 0) !! count_key example_url = None
  ∧ store (reset_count example_url (flushed 0)).2 = store (flushed 0)
  ∧ (get_count example_url after_hello).1 = Ok 1%Z
  ∧ (get_count example_url (reset_count example_url after_hello).2).1 = Ok 0%Z.
Proof.
  split; [reflexivity|]. split.
  - apply (reset_count_deletes_the_counter example_url (flushed 0)).
    reflexivity.
  - split; [vm_compute; reflexivity|].
    exact (proj1 (proj2 (proj2
             (reset_count_deletes_the_counter example_url after_hello)))).
Defined.

(** ** Cache hits and the ten seconds *)

(** A visible entry with a non-empty value is returned as it is, decoded,
    with no HTTP request and no write; bytes that are not UTF-8 make the
    call raise instead. *)
Lemma nonempty_entry_is_served web url w n e :
  counter w url = Some n →
  (n < int64_max)%Z →
  cache_entry w url = Some e →
  truthy (value e) = true →
  get_page web url w =
    (if utf8_valid (value e) then Ok (value e) else Raise UnicodeDecodeError,
     World (clock w) (counted (count_key url) n (store w))
           (trace w ++ [EIncr (count_key url); EGet (cache_key url)])).
Proof.
  intros Hn Hroom He Ht.
  apply (get_page_hit web url w n Hn Hroom), served_hit; assumption.
Qed.

Section Window.
Variables (web web' : string → exchange) (url : string) (w : world) (n : Z).
Variable resp : response.
Hypothesis Hcounter : counter w url = Some n.
Hypothesis Hroom : (n < int64_max)%Z.
Hypothesis Hmiss : served w url = None.
Hypothesis Hresp : ending (web url) = Responded resp.

(** The world a miss that got an answer leaves behind. *)
Lemma miss_counter : counter (get_page web url w).2 url = Some (n + 1)%Z.
Proof. apply get_page_counter_next; assumption. Qed.

Lemma miss_cache_entry ms :
  cache_entry (sleep ms (get_page web url w).2) url
  = if (ms <=? 10 * 1000)%N
    then Some (Entry (text resp)
                     (Some (clock w + elapsed (web url) + 10 * 1000)%N))
    else None.
Proof.
  rewrite (get_page_miss_response web url w n Hcounter Hroom resp Hmiss Hresp).
  unfold cache_entry, sleep. simpl.
  rewrite live_insert_eq, expired_deadline.
  destruct (N.leb_spec ms (10 * 1000)) as [Hle|Hgt].
  - replace (_ <=? _)%N with true; [reflexivity|].
    symmetry. apply N.leb_le. lia.
  - replace (_ <=? _)%N with false; [reflexivity|].
    symmetry. apply N.leb_gt. lia.
Qed.

(** A non-empty body is served from the cache for ten seconds, without
    any HTTP request, whatever the network would answer by then. *)
Lemma body_served_within_window ms :
  (n + 1 < int64_max)%Z →
  truthy (text resp) = true →
  utf8_valid (text resp) = true →
  (ms ≤ 10 * 1000)%N →
  (get_page web' url (sleep ms (get_page web url w).2)).1 = Ok (text resp)
  ∧ issued (sleep ms (get_page web url w).2)
           (get_page web' url (sleep ms (get_page web url w).2)).2
           [EIncr (count_key url); EGet (cache_key url)].
Proof.
  intros Hnext Ht Hu Hms.
  assert (Hc : counter (sleep ms (get_page web url w).2) url = Some (n + 1)%Z)
    by exact miss_counter.
  assert (He : cache_entry (sleep ms (get_page web url w).2) url
               = Some (Entry (text resp)
                         (Some (clock w + elapsed (web url) + 10 * 1000)%N))).
  { rewrite miss_cache_entry.
    replace (ms <=? 10 * 1000)%N with true; [reflexivity|].
    symmetry. apply N.leb_le, Hms. }
  rewrite (nonempty_entry_is_served web' url _ (n + 1) _ Hc Hnext He Ht).
  simpl. rewrite Hu. split; reflexivity.
Qed.

(** Past the ten seconds the entry is gone and the next call goes to the
    network again. *)
Lemma body_refetched_after_window ms :
  (n + 1 < int64_max)%Z →
  (10 * 1000 < ms)%N →
  ∃ rest,
    issued (sleep ms (get_page web url w).2)
           (get_page web' url (sleep ms (get_page web url w).2)).2
           (EIncr (count_key url) :: EGet (cache_key url)
              :: EHttpGet url :: rest).
Proof.
  intros Hnext Hms.
  assert (Hc : counter (sleep ms (get_page web url w).2) url = Some (n + 1)%Z)
    by exact miss_counter.
  assert (Hs : served (sleep ms (get_page web url w).2) url = None).
  { apply served_absent. rewrite miss_cache_entry.
    replace (ms <=? 10 * 1000)%N with false; [reflexivity|].
    symmetry. apply N.leb_gt, Hms. }
  destruct (ending (web' url)) as [resp'|cause] eqn:Hx.
  - rewrite (get_page_miss_response web' url _ (n + 1) Hc Hnext resp' Hs Hx).
    eexists. reflexivity.
  - rewrite (get_page_miss_failure web' url _ (n + 1) Hc Hnext cause Hs Hx).
    eexists. reflexivity.
Qed.
End Window.

(** C3 on an entry that is present and empty.  The server holds
    [cache:url] with the empty value and ten seconds to live, as a call
    that met an empty response body left it; the next call finds the entry
    and does not return it: it sends an HTTP GET and a SETEX. *)
Theorem present_empty_entry_is_not_served :
  cache_entry after_blank example_url = Some (Entry "" (Some 10080%N))
  ∧ get_page web_moved example_url after_blank
    = (Ok "welcome back",
       World 170
             (<[cache_key example_url := Entry "welcome back" (Some 10170%N)]>
                (<[count_key example_url := Entry "2" None]>
                   (store after_blank)))
             (trace after_blank
                ++ [EIncr (count_key example_url);
                    EGet (cache_key example_url);
                    EHttpGet example_url;
                    ESetex (cache_key example_url) 10 "welcome back"])).
Proof.
  split; [reflexivity|].
  rewrite (get_page_miss_response web_moved example_url after_blank 1 eq_refl
             eq_refl (Response 200 "welcome back") eq_refl eq_refl).
  reflexivity.
Qed.

(** C7 on an empty body.  A call at instant 0 caches the empty body of
    its response until instant 10 080; one second later, well inside the
    ten seconds, the entry is still visible to a lookup, and the next call
    sends a new HTTP GET all the same. *)
Theorem empty_body_is_refetched_within_ttl :
  clock after_blank = 80%N
  ∧ cache_entry (sleep 1000 after_blank) example_url
    = Some (Entry "" (Some 10080%N))
  ∧ (get_page web_moved example_url (sleep 1000 after_blank)).1
    = Ok "welcome back"
  ∧ issued (sleep 1000 after_blank)
           (get_page web_moved example_url (sleep 1000 after_blank)).2
           [EIncr (count_key example_url); EGet (cache_key example_url);
            EHttpGet example_url;
            ESetex (cache_key example_url) 10 "welcome back"].
Proof.
  split; [reflexivity|]. split; [reflexivity|].
  rewrite (get_page_miss_response web_moved example_url
             (sleep 1000 after_blank) 1 eq_refl eq_refl
             (Response 200 "welcome back") eq_refl eq_refl).
  split; reflexivity.
Qed.

(** C10 on an error page with an empty body.  A 503 answer with no body
    is cached for ten seconds like any answer; the next caller, two seconds
    later, is not given that cached body: the call goes to the network and
    returns what it finds there. *)
Theorem empty_error_body_is_not_served :
  (get_page web_blank_error example_url (flushed 0)).1 = Ok ""
  ∧ store after_blank_error !! cache_key example_url
    = Some (Entry "" (Some 10080%N))
  ∧ (get_page web_hello example_url (sleep 2000 after_blank_error)).1
    = Ok "hello"
  ∧ issued (sleep 2000 after_blank_error)
           (get_page web_hello example_url (sleep 2000 after_blank_error)).2
           [EIncr (count_key example_url); EGet (cache_key example_url);
            EHttpGet example_url;
            ESetex (cache_key example_url) 10 "hello"].
Proof.
  split; [reflexivity|]. split; [reflexivity|].
  rewrite (get_page_miss_response web_hello example_url
             (sleep 2000 after_blank_error) 1 eq_refl eq_refl
             (Response 200 "hello") eq_refl eq_refl).
  split; reflexivity.
Qed.

(** ** The self-test *)

Lemma bind_ok {A B} (m : M A) (k : A → M B) w a w' :
  m w = (Ok a, w') → bind m k w = k a w'.
Proof. intros E. unfold bind. rewrite E. reflexivity. Qed.

(** An entry with ten seconds to live is returned now and gone eleven
    seconds later. *)
Lemma r_get_fresh key v w :
  store w !! key = Some (Entry v (Some (clock w + 10 * 1000)%N)) →
  r_get key w = (Ok (Some v), emit (EGet key) w)
  ∧ r_get key (sleep (11 * 1000) (emit (EGet key) w))
    = (Ok None, emit (EGet key) (sleep (11 * 1000) (emit (EGet key) w))).
Proof.
  intros Hk. unfold r_get, live. simpl. rewrite !Hk. unfold expired. simpl.
  replace (_ <? clock w)%N with false by (symmetry; apply N.ltb_ge; lia).
  replace (_ <? _)%N with true by (symmetry; apply N.ltb_lt; lia).
  split; reflexivity.
Qed.

(** The last two checks of the self-test, from a world whose cache entry
    was written just now. *)
Lemma main_checks_cache url v w :
  counter w url = Some 2%Z →
  store w !! cache_key url = Some (Entry v (Some (clock w + 10 * 1000)%N)) →
  ((count_after_second <- get_count url ;;
    _ <- py_assert (count_after_second =? 2)%Z ;;
    cached_content <- r_get (cache_key url) ;;
    _ <- py_assert (negb (is_none cached_content)) ;;
    _ <- time_sleep 11 ;;
    expired_content <- r_get (cache_key url) ;;
    _ <- py_assert (is_none expired_content) ;;
    ret tt) w).1 = Ok tt.
Proof.
  intros Hn Hk.
  erewrite bind_ok by (apply (get_count_counter url 2), Hn).
  erewrite bind_ok by reflexivity.
  destruct (r_get_fresh (cache_key url) v (emit (EGet (count_key url)) w) Hk)
    as [Hnow Hlater].
  erewrite bind_ok by exact Hnow.
  erewrite bind_ok by reflexivity.
  erewrite bind_ok by reflexivity.
  erewrite bind_ok by exact Hlater.
  reflexivity.
Qed.

(** X12.  Against a network that answers for the test URL, every assertion
    of the self-test holds, whatever the server held before the flush and
    whether the body is empty or not. *)
Lemma main_passes web w resp :
  ending (web "http://google.com") = Responded resp →
  utf8_valid (text resp) = true →
  (main web w).1 = Ok tt.
Proof.
  intros Hx Hu. unfold main.
  set (url := "http://google.com") in *.
  erewrite bind_ok by reflexivity.
  erewrite bind_ok by (apply (get_count_counter url 0); reflexivity).
  erewrite bind_ok by reflexivity.
  erewrite bind_ok
    by (apply get_page_miss_response with (n := 0%Z) (resp := resp);
        [reflexivity | reflexivity | reflexivity | exact Hx]).
  erewrite bind_ok by (apply (get_count_counter url 1); reflexivity).
  erewrite bind_ok by reflexivity.
  destruct (truthy (text resp)) eqn:Ht.
  - erewrite bind_ok.
    2:{ rewrite (nonempty_entry_is_served web url _ 1
                   (Entry (text resp)
                      (Some (clock w + elapsed (web url) + 10 * 1000)%N))).
        - simpl. rewrite Hu. reflexivity.
        - reflexivity.
        - reflexivity.
        - unfold cache_entry, live, expired. simpl.
          rewrite lookup_insert_eq. simpl.
          replace (_ <? _)%N with false by (symmetry; apply N.ltb_ge; lia).
          reflexivity.
        - exact Ht. }
    apply main_checks_cache with (v := text resp); reflexivity.
  - erewrite bind_ok.
    2:{ apply get_page_miss_response with (n := 1%Z) (resp := resp).
        - reflexivity.
        - reflexivity.
        - unfold served, cache_entry, live, expired. simpl.
          rewrite lookup_insert_eq. simpl.
          replace (_ <? _)%N with false by (symmetry; apply N.ltb_ge; lia).
          simpl. rewrite Ht. reflexivity.
        - exact Hx. }
    apply main_checks_cache with (v := text resp); reflexivity.
Qed.

(** ** Further properties of the module *)

(** *** Keys *)

(** X1.  The two key families never meet: no counter key is a cache key,
    and each family has one key per URL. *)
Theorem keys_do_not_collide url url' :
  count_key url ≠ cache_key url'
  ∧ (count_key url = count_key url' ↔ url = url')
  ∧ (cache_key url = cache_key url' ↔ url = url').
Proof.
  split; [apply count_key_not_cache_key|]. split; split.
  - apply count_key_inj.
  - intros ->. reflexivity.
  - apply cache_key_inj.
  - intros ->. reflexivity.
Qed.

(** *** What a call may send *)

Lemma fetch_page_shapes web url w :
  ∃ evs,
    issued w (fetch_page web url w).2 (EGet (cache_key url) :: evs)
    ∧ (evs = []
       ∨ evs = [EHttpGet url]
       ∨ ∃ body, evs = [EHttpGet url; ESetex (cache_key url) 10 body]).
Proof.
  destruct (served w url) as [b|] eqn:Hs;
    [|destruct (ending (web url)) as [resp|cause] eqn:Hx].
  - exists []. rewrite (fetch_page_hit web url w b Hs).
    split; [reflexivity|]. left. reflexivity.
  - exists [EHttpGet url; ESetex (cache_key url) 10 (text resp)].
    rewrite (fetch_page_miss_response web url w resp Hs Hx).
    split; [reflexivity|]. right. right. exists (text resp). reflexivity.
  - exists [EHttpGet url].
    rewrite (fetch_page_miss_failure web url w cause Hs Hx).
    split; [reflexivity|]. right. left. reflexivity.
Qed.

Lemma get_page_shapes web url w :
  ∃ evs,
    issued w (get_page web url w).2 (EIncr (count_key url) :: evs)
    ∧ (evs = []
       ∨ evs = [EGet (cache_key url)]
       ∨ evs = [EGet (cache_key url); EHttpGet url]
       ∨ ∃ body,
           evs = [EGet (cache_key url); EHttpGet url;
                  ESetex (cache_key url) 10 body]).
Proof.
  assert (Hbody : ∀ w1,
    trace w1 = trace w ++ [EIncr (count_key url)] →
    ∃ evs,
      issued w (fetch_page web url w1).2 (EIncr (count_key url) :: evs)
      ∧ (evs = []
         ∨ evs = [EGet (cache_key url)]
         ∨ evs = [EGet (cache_key url); EHttpGet url]
         ∨ ∃ body,
             evs = [EGet (cache_key url); EHttpGet url;
                    ESetex (cache_key url) 10 body])).
  { intros w1 H1.
    destruct (fetch_page_shapes web url w1) as (evs & Hi & Hshape).
    exists (EGet (cache_key url) :: evs). split.
    - unfold issued in *. rewrite Hi, H1, <- app_assoc. reflexivity.
    - right. destruct Hshape as [->|[->|[body ->]]].
      + left. reflexivity.
      + right. left. reflexivity.
      + right. right. exists body. reflexivity. }
  unfold get_page, count_calls, bind, r_incr.
  destruct (live (clock w) (store w) (count_key url)) as [e|].
  - destruct (parse_integer (value e)) as [n|];
      [destruct (n <? int64_max)%Z|].
    + apply Hbody. reflexivity.
    + exists []. split; [reflexivity|]. left. reflexivity.
    + exists []. split; [reflexivity|]. left. reflexivity.
  - apply Hbody. reflexivity.
Qed.

(** X2.  Whatever the server holds and whatever the network does, one call
    of [get_page url] sends one of four sequences: INCR alone (when INCR
    is refused), INCR and GET, these and one HTTP GET, or these three and
    one SETEX of [cache:url] for 10 seconds.  It never deletes a key, never
    requests a page twice, never writes the cache without having requested
    the page. *)
Theorem get_page_sends_one_of_four_sequences web url w :
  ∃ evs,
    issued w (get_page web url w).2 (EIncr (count_key url) :: evs)
    ∧ (evs = []
       ∨ evs = [EGet (cache_key url)]
       ∨ evs = [EGet (cache_key url); EHttpGet url]
       ∨ ∃ body,
           evs = [EGet (cache_key url); EHttpGet url;
                  ESetex (cache_key url) 10 body]).
Proof. exact (get_page_shapes web url w). Qed.

(** X3.  When the key [count:url] holds something that is not an integer,
    INCR is refused and the decorator stops there: the decorated method,
    whatever it is, does not run, and the keyspace is as it was. *)
Theorem count_calls_stops_when_incr_is_refused
    {A} (method : string → M A) url w e :
  live (clock w) (store w) (count_key url) = Some e →
  parse_integer (value e) = None →
  count_calls method url w
  = (Raise ResponseError, emit (EIncr (count_key url)) w).
Proof.
  intros He Hv. unfold count_calls, bind, r_incr. rewrite He, Hv. reflexivity.
Qed.

Lemma count_calls_stops_when_incr_is_refused_witness :
  get_page web_hello example_url garbled_counter
  = (Raise ResponseError, emit (EIncr (count_key example_url)) garbled_counter).
Proof.
  apply (count_calls_stops_when_incr_is_refused
           (fetch_page web_hello) example_url garbled_counter
           (Entry "abc" None));
    reflexivity.
Defined.

(** X4.  A call for one URL leaves the counter key and the cache key of
    every other URL exactly as they were, whether it returns or raises. *)
Theorem get_page_leaves_other_urls_alone web url url' w :
  url ≠ url' →
  store (get_page web url w).2 !! count_key url' = store w !! count_key url'
  ∧ store (get_page web url w).2 !! cache_key url' = store w !! cache_key url'.
Proof.
  intros Hne. split; apply get_page_store_frame.
  - intros E. apply count_key_inj in E. congruence.
  - apply count_key_not_cache_key.
  - apply not_eq_sym, count_key_not_cache_key.
  - intros E. apply cache_key_inj in E. congruence.
Qed.

Lemma get_page_leaves_other_urls_alone_witness :
  store (get_page web_timeout example_url (sleep 60000 two_urls)).2
    !! count_key "http://other.test"
  = store (sleep 60000 two_urls) !! count_key "http://other.test"
  ∧ store (get_page web_timeout example_url (sleep 60000 two_urls)).2
      !! cache_key "http://other.test"
    = store (sleep 60000 two_urls) !! cache_key "http://other.test".
Proof.
  apply (get_page_leaves_other_urls_alone
           web_timeout example_url "http://other.test" (sleep 60000 two_urls)).
  discriminate.
Defined.

(** *** Reading and resetting *)

(** X5.  [get_count] only reads: it sends one GET, and leaves the keyspace
    and the clock as they were, whatever it returns or raises; so reading
    a counter changes no later reading. *)
Theorem get_count_only_reads url url' w :
  store (get_count url w).2 = store w
  ∧ clock (get_count url w).2 = clock w
  ∧ issued w (get_count url w).2 [EGet (count_key url)]
  ∧ (get_count url' (get_count url w).2).1 = (get_count url' w).1.
Proof.
  assert (Hw : (get_count url w).2 = emit (EGet (count_key url)) w).
  { unfold get_count, bind, r_get, py_int. simpl.
    destruct (live (clock w) (store w) (count_key url)) as [e|]; simpl;
      [|reflexivity].
    destruct (truthy (value e)); [|reflexivity].
    destruct (int_literal (value e)); reflexivity. }
  rewrite Hw. repeat split.
  unfold get_count, bind, r_get, py_int. simpl.
  destruct (live (clock w) (store w) (count_key url')) as [e|]; simpl;
    [|reflexivity].
  destruct (truthy (value e)); [|reflexivity].
  destruct (int_literal (value e)); reflexivity.
Qed.

Lemma run_app l1 l2 w : run (l1 ++ l2) w = run l2 (run l1 w).
Proof. unfold run. apply foldl_app. Qed.

(** X6.  After [reset_count url] only later calls count: whatever the
    server held and whatever the session did before the reset, [get_count
    url] returns the number of calls [get_page url] made since, as far as
    the server counts (2^63 - 1 calls). *)
Theorem count_restarts_after_reset url w l1 l2 :
  resets url l2 = 0 →
  (Z.of_nat (fetches url l2) ≤ int64_max)%Z →
  (get_count url (run (l1 ++ ResetCount url :: l2) w)).1
  = Ok (Z.of_nat (fetches url l2)).
Proof.
  intros Hr Hmax. rewrite run_app, run_cons.
  rewrite (get_count_counter url (Z.of_nat (fetches url l2))); [reflexivity|].
  apply (run_counter url l2 _ 0); [|exact Hr|lia].
  unfold counter. cbn [step]. rewrite reset_count_store, lookup_delete_eq.
  reflexivity.
Qed.

Lemma count_restarts_after_reset_witness :
  (get_count example_url
     (run (mixed_session
             ++ ResetCount example_url
             :: [GetPage web_timeout example_url; Sleep 500;
                 GetPage web_hello example_url; GetCount example_url])
          garbled_counter)).1
  = Ok (Z.of_nat 2).
Proof.
  apply (count_restarts_after_reset example_url garbled_counter mixed_session
           [GetPage web_timeout example_url; Sleep 500;
            GetPage web_hello example_url; GetCount example_url]);
    [reflexivity | vm_compute; discriminate].
Defined.

(** X7.  [reset_count] touches nothing but the one counter: every cache
    entry, of this URL and of all others, is seen exactly as before, the
    clock has not moved, and the counters of other URLs are unchanged. *)
Theorem reset_count_keeps_the_cache url url' w :
  cache_entry (reset_count url w).2 url' = cache_entry w url'
  ∧ served (reset_count url w).2 url' = served w url'
  ∧ clock (reset_count url w).2 = clock w
  ∧ (url ≠ url' → counter (reset_count url w).2 url' = counter w url').
Proof.
  assert (Hc : cache_entry (reset_count url w).2 url' = cache_entry w url').
  { unfold cache_entry, live. rewrite reset_count_store.
    rewrite lookup_delete_ne by apply count_key_not_cache_key. reflexivity. }
  split; [exact Hc|]. split; [unfold served; rewrite Hc; reflexivity|].
  split; [reflexivity|].
  intros Hne. apply counter_store. rewrite reset_count_store.
  apply lookup_delete_ne. intros E. apply count_key_inj in E. congruence.
Qed.

Lemma reset_count_keeps_the_cache_witness :
  counter two_urls "http://other.test" = Some 1%Z
  ∧ counter (reset_count example_url two_urls).2 "http://other.test"
    = counter two_urls "http://other.test".
Proof.
  split; [reflexivity|].
  apply (reset_count_keeps_the_cache example_url "http://other.test" two_urls).
  discriminate.
Defined.

(** *** The cache over time *)

(** INCR moves neither the clock nor any key but its own. *)
Lemma r_incr_clock key w : clock (r_incr key w).2 = clock w.
Proof.
  unfold r_incr. destruct (live (clock w) (store w) key) as [e|]; [|reflexivity].
  destruct (parse_integer (value e)) as [n|]; [|reflexivity].
  destruct (n <? int64_max)%Z; reflexivity.
Qed.

Lemma r_incr_store_other key w k :
  k ≠ key → store (r_incr key w).2 !! k = store w !! k.
Proof.
  intros Hk. unfold r_incr.
  destruct (live (clock w) (store w) key) as [e|];
    [destruct (parse_integer (value e)) as [n|];
       [destruct (n <? int64_max)%Z|]|];
    simpl; try reflexivity; apply lookup_insert_ne; congruence.
Qed.

(** A call ends in INCR or in the body run after it. *)
Lemma get_page_world web url w :
  (get_page web url w).2 = (r_incr (count_key url) w).2
  ∨ (get_page web url w).2
    = (fetch_page web url (r_incr (count_key url) w).2).2.
Proof.
  unfold get_page, count_calls, bind.
  destruct (r_incr (count_key url) w) as [[c|e] w']; simpl; auto.
Qed.

Lemma cache_entry_same w w' url :
  store w' !! cache_key url = store w !! cache_key url →
  clock w' = clock w →
  cache_entry w' url = cache_entry w url.
Proof. unfold cache_entry, live. intros -> ->. reflexivity. Qed.

Lemma fetch_page_clock web url w : (clock w ≤ clock (fetch_page web url w).2)%N.
Proof.
  destruct (served w url) as [b|] eqn:Hs;
    [|destruct (ending (web url)) as [resp|cause] eqn:Hx].
  - rewrite (fetch_page_hit web url w b Hs). simpl. lia.
  - rewrite (fetch_page_miss_response web url w resp Hs Hx). simpl. lia.
  - rewrite (fetch_page_miss_failure web url w cause Hs Hx). simpl. lia.
Qed.

Lemma get_page_clock web url w : (clock w ≤ clock (get_page web url w).2)%N.
Proof.
  pose proof (fetch_page_clock web url (r_incr (count_key url) w).2) as Hf.
  rewrite r_incr_clock in Hf.
  destruct (get_page_world web url w) as [-> | ->]; [|exact Hf].
  rewrite r_incr_clock. lia.
Qed.

(** A call that finds a body to serve leaves the entry and the clock as
    they are, whether INCR went through or was refused. *)
Lemma get_page_keeps_served web url w b :
  served w url = Some b →
  store (get_page web url w).2 !! cache_key url = store w !! cache_key url
  ∧ clock (get_page web url w).2 = clock w.
Proof.
  intros Hs.
  assert (Hk : store (r_incr (count_key url) w).2 !! cache_key url
               = store w !! cache_key url)
    by (apply r_incr_store_other, not_eq_sym, count_key_not_cache_key).
  pose proof (r_incr_clock (count_key url) w) as Hc.
  destruct (get_page_world web url w) as [-> | ->]; [split; assumption|].
  assert (Hs' : served (r_incr (count_key url) w).2 url = Some b).
  { unfold served. rewrite (cache_entry_same w _ url Hk Hc). exact Hs. }
  rewrite (fetch_page_hit web url _ b Hs'). simpl. split; assumption.
Qed.

Lemma get_count_world url w :
  store (get_count url w).2 = store w ∧ clock (get_count url w).2 = clock w.
Proof.
  unfold get_count, bind, r_get, py_int. simpl.
  destruct (live (clock w) (store w) (count_key url)) as [e|]; simpl;
    [|split; reflexivity].
  destruct (truthy (value e)); [|split; reflexivity].
  destruct (int_literal (value e)); split; reflexivity.
Qed.

(** The clock never runs backwards. *)
Lemma step_clock a w : (clock w ≤ clock (step w a))%N.
Proof.
  destruct a as [web url|url|url|ms]; cbn [step].
  - apply get_page_clock.
  - rewrite (proj2 (get_count_world url w)). lia.
  - simpl. lia.
  - simpl. lia.
Qed.

Lemma run_clock l : ∀ w, (clock w ≤ clock (run l w))%N.
Proof.
  induction l as [|a l IH]; intros w; [cbn; lia|].
  rewrite run_cons. pose proof (step_clock a w). pose proof (IH (step w a)).
  lia.
Qed.

(** Until its deadline has passed, nothing a session does touches a
    non-empty cache entry. *)
Lemma step_keeps_entry url v d a w :
  store w !! cache_key url = Some (Entry v (Some d)) →
  truthy v = true →
  (clock (step w a) ≤ d)%N →
  store (step w a) !! cache_key url = Some (Entry v (Some d)).
Proof.
  intros Hk Ht Hd. pose proof (step_clock a w) as Hc.
  destruct a as [web url'|url'|url'|ms]; cbn [step] in *.
  - destruct (decide (url' = url)) as [->|Hne].
    + assert (Hs : served w url = Some v).
      { unfold served, cache_entry, live. rewrite Hk, expired_deadline.
        replace (clock w <=? d)%N with true by (symmetry; apply N.leb_le; lia).
        simpl. rewrite Ht. reflexivity. }
      rewrite (proj1 (get_page_keeps_served web url w v Hs)). exact Hk.
    + rewrite get_page_store_frame; [exact Hk| |].
      * apply not_eq_sym, count_key_not_cache_key.
      * intros E. apply cache_key_inj in E. congruence.
  - rewrite get_count_store. exact Hk.
  - rewrite reset_count_store, lookup_delete_ne; [exact Hk|].
    apply count_key_not_cache_key.
  - exact Hk.
Qed.

Lemma run_keeps_entry url v d l : ∀ w,
  store w !! cache_key url = Some (Entry v (Some d)) →
  truthy v = true →
  (clock (run l w) ≤ d)%N →
  store (run l w) !! cache_key url = Some (Entry v (Some d)).
Proof.
  induction l as [|a l IH]; intros w Hk Ht Hd; [exact Hk|].
  rewrite run_cons in *. apply IH; [|exact Ht|exact Hd].
  apply step_keeps_entry; [exact Hk|exact Ht|].
  pose proof (run_clock l (step w a)). lia.
Qed.

(** X8.  Write, then read back.  When a miss has fetched a non-empty body,
    every call made while the ten seconds run returns that very body and
    sends no HTTP request, whatever the session [l] did since the fetch
    (calls for this and other URLs, counters read or reset, time passing)
    and whatever the network has become; and the first call once the ten
    seconds are over requests the page again.  The counter is below the
    ceiling of the server at both calls, so that INCR goes through. *)
Theorem fetched_body_is_served_for_ten_seconds web web' url w n resp l m ms :
  counter w url = Some n →
  (n < int64_max)%Z →
  served w url = None →
  ending (web url) = Responded resp →
  truthy (text resp) = true →
  utf8_valid (text resp) = true →
  (clock (run l (get_page web url w).2)
   ≤ clock (get_page web url w).2 + 10 * 1000)%N →
  counter (run l (get_page web url w).2) url = Some m →
  (m < int64_max)%Z →
  (get_page web' url (run l (get_page web url w).2)).1 = Ok (text resp)
  ∧ issued (run l (get_page web url w).2)
           (get_page web' url (run l (get_page web url w).2)).2
           [EIncr (count_key url); EGet (cache_key url)]
  ∧ ((clock (get_page web url w).2 + 10 * 1000
      < clock (run l (get_page web url w).2) + ms)%N →
     ∃ rest,
       issued (sleep ms (run l (get_page web url w).2))
              (get_page web' url (sleep ms (run l (get_page web url w).2))).2
              (EIncr (count_key url) :: EGet (cache_key url)
                 :: EHttpGet url :: rest)).
Proof.
  intros Hn Hroom Hs Hx Ht Hu Hin Hm Hm'.
  assert (Hk1 : store (get_page web url w).2 !! cache_key url
                = Some (Entry (text resp)
                          (Some (clock (get_page web url w).2 + 10 * 1000)%N))).
  { rewrite (get_page_miss_response web url w n Hn Hroom resp Hs Hx). simpl.
    apply lookup_insert_eq. }
  revert Hk1 Hin Hm. generalize (get_page web url w).2. intros w1 Hk1 Hin Hm.
  pose proof (run_keeps_entry url _ _ l w1 Hk1 Ht Hin) as Hk.
  assert (He : cache_entry (run l w1) url
               = Some (Entry (text resp) (Some (clock w1 + 10 * 1000)%N))).
  { unfold cache_entry, live. rewrite Hk, expired_deadline.
    replace (_ <=? _)%N with true by (symmetry; apply N.leb_le; exact Hin).
    reflexivity. }
  rewrite (nonempty_entry_is_served web' url (run l w1) m _ Hm Hm' He Ht).
  simpl. rewrite Hu. split; [reflexivity|]. split; [reflexivity|].
  intros Hout.
  assert (Hc : counter (sleep ms (run l w1)) url = Some m) by exact Hm.
  assert (Hs' : served (sleep ms (run l w1)) url = None).
  { apply served_absent. unfold cache_entry, live, sleep. simpl.
    rewrite Hk, expired_deadline.
    replace (_ <=? _)%N with false by (symmetry; apply N.leb_gt; exact Hout).
    reflexivity. }
  destruct (ending (web' url)) as [resp'|cause] eqn:Hx'.
  - rewrite (get_page_miss_response web' url _ m Hc Hm' resp' Hs' Hx').
    eexists. reflexivity.
  - rewrite (get_page_miss_failure web' url _ m Hc Hm' cause Hs' Hx').
    eexists. reflexivity.
Qed.

Lemma fetched_body_is_served_for_ten_seconds_witness :
  (get_page web_timeout example_url (run busy_window after_hello)).1
  = Ok "hello"
  ∧ issued (run busy_window after_hello)
           (get_page web_timeout example_url (run busy_window after_hello)).2
           [EIncr (count_key example_url); EGet (cache_key example_url)]
  ∧ ((clock after_hello + 10 * 1000
      < clock (run busy_window after_hello) + 2000)%N →
     ∃ rest,
       issued (sleep 2000 (run busy_window after_hello))
              (get_page web_timeout example_url
                 (sleep 2000 (run busy_window after_hello))).2
              (EIncr (count_key example_url) :: EGet (cache_key example_url)
                 :: EHttpGet example_url :: rest)).
Proof.
  apply (fetched_body_is_served_for_ten_seconds
           web_hello web_timeout example_url (flushed 0) 0
           (Response 200 "hello") busy_window 3 2000);
    first [reflexivity | vm_compute; reflexivity | vm_compute; discriminate].
Defined.

(** X9.  The ten seconds run from the fetch, not from the last use: a hit
    leaves the entry and its deadline as they are, so however often the
    body is served meanwhile, the entry is gone ten seconds after it was
    written.  The counter is below the ceiling of the server when the page
    is fetched. *)
Theorem hits_do_not_extend_the_lifetime web web' url w n resp ms ms' :
  counter w url = Some n →
  (n < int64_max)%Z →
  served w url = None →
  ending (web url) = Responded resp →
  truthy (text resp) = true →
  (ms ≤ 10 * 1000)%N →
  cache_entry
    (sleep ms' (get_page web' url (sleep ms (get_page web url w).2)).2) url
  = if (ms + ms' <=? 10 * 1000)%N
    then Some (Entry (text resp)
                     (Some (clock w + elapsed (web url) + 10 * 1000)%N))
    else None.
Proof.
  intros Hn Hroom Hs Hx Ht Hms.
  pose proof (miss_cache_entry web url w n resp Hn Hroom Hs Hx ms) as He.
  replace (ms <=? 10 * 1000)%N with true in He
    by (symmetry; apply N.leb_le, Hms).
  destruct (get_page_keeps_served web' url (sleep ms (get_page web url w).2)
              (text resp) (served_hit _ _ _ He Ht)) as [Hk Hc].
  rewrite <- (miss_cache_entry web url w n resp Hn Hroom Hs Hx (ms + ms')).
  apply cache_entry_same; [exact Hk|].
  cbn [sleep clock]. rewrite Hc. cbn [sleep clock]. lia.
Qed.

Lemma hits_do_not_extend_the_lifetime_witness :
  cache_entry
    (sleep 2000
       (get_page web_timeout example_url
          (sleep 9000 (get_page web_hello example_url (flushed 0)).2)).2)
    example_url
  = if (9000 + 2000 <=? 10 * 1000)%N
    then Some (Entry "hello"
                 (Some (clock (flushed 0) + elapsed (web_hello example_url)
                        + 10 * 1000)%N))
    else None.
Proof.
  apply (hits_do_not_extend_the_lifetime
           web_hello web_timeout example_url (flushed 0) 0
           (Response 200 "hello") 9000 2000);
    try reflexivity; lia.
Defined.

Lemma served_none_later w w' url :
  store w' !! cache_key url = store w !! cache_key url →
  (clock w ≤ clock w')%N →
  served w url = None → served w' url = None.
Proof.
  unfold served, cache_entry, live. intros -> Ht.
  destruct (store w !! cache_key url) as [e|]; [|reflexivity].
  destruct (expired (clock w) e) eqn:Ex.
  - rewrite (expired_later _ _ e Ht Ex). reflexivity.
  - destruct (truthy (value e)) eqn:Tr; [discriminate|].
    destruct (expired (clock w') e); [reflexivity|]. rewrite Tr. reflexivity.
Qed.

(** X10.  A failed fetch is not remembered: when the HTTP GET of a miss
    raises, nothing is written under [cache:url], and the next call for
    the URL, however soon or late, requests the page again.  The counter
    is below the ceiling of the server at both calls. *)
Theorem failed_fetch_is_not_cached web web' url w n cause ms :
  counter w url = Some n →
  (n + 1 < int64_max)%Z →
  served w url = None →
  ending (web url) = Failed cause →
  store (get_page web url w).2 !! cache_key url = store w !! cache_key url
  ∧ ∃ rest,
      issued (sleep ms (get_page web url w).2)
             (get_page web' url (sleep ms (get_page web url w).2)).2
             (EIncr (count_key url) :: EGet (cache_key url)
                :: EHttpGet url :: rest).
Proof.
  intros Hn Hnext Hs Hx.
  assert (Hroom : (n < int64_max)%Z) by lia.
  assert (Hk : store (get_page web url w).2 !! cache_key url
               = store w !! cache_key url).
  { rewrite (get_page_miss_failure web url w n Hn Hroom cause Hs Hx). simpl.
    apply lookup_insert_ne, count_key_not_cache_key. }
  split; [exact Hk|].
  assert (Hc : counter (sleep ms (get_page web url w).2) url = Some (n + 1)%Z)
    by (apply get_page_counter_next; assumption).
  assert (Hs' : served (sleep ms (get_page web url w).2) url = None).
  { apply (served_none_later w); [exact Hk| |exact Hs].
    rewrite (get_page_miss_failure web url w n Hn Hroom cause Hs Hx).
    simpl. lia. }
  destruct (ending (web' url)) as [resp'|cause'] eqn:Hx'.
  - rewrite (get_page_miss_response web' url _ (n + 1) Hc Hnext resp' Hs' Hx').
    eexists. reflexivity.
  - rewrite (get_page_miss_failure web' url _ (n + 1) Hc Hnext cause' Hs' Hx').
    eexists. reflexivity.
Qed.

Lemma failed_fetch_is_not_cached_witness :
  store (get_page web_refused example_url (flushed 0)).2
    !! cache_key example_url
  = store (flushed 0) !! cache_key example_url
  ∧ ∃ rest,
      issued (sleep 1 (get_page web_refused example_url (flushed 0)).2)
             (get_page web_hello example_url
                (sleep 1 (get_page web_refused example_url (flushed 0)).2)).2
             (EIncr (count_key example_url) :: EGet (cache_key example_url)
                :: EHttpGet example_url :: rest).
Proof.
  apply (failed_fetch_is_not_cached
           web_refused web_hello example_url (flushed 0) 0 ConnectionError 1);
    reflexivity.
Defined.

(** *** Sessions from a flushed server *)

(** Where a call for [url] leaves the cache key of [url']: as it was, or
    freshly written with ten seconds to live. *)
Lemma fetch_page_cache_key web url url' w :
  store (fetch_page web url w).2 !! cache_key url' = store w !! cache_key url'
  ∨ ∃ v, store (fetch_page web url w).2 !! cache_key url'
         = Some (Entry v (Some (clock (fetch_page web url w).2 + 10 * 1000)%N)).
Proof.
  destruct (served w url) as [b|] eqn:Hs;
    [|destruct (ending (web url)) as [resp|cause] eqn:Hx].
  - rewrite (fetch_page_hit web url w b Hs). left. reflexivity.
  - rewrite (fetch_page_miss_response web url w resp Hs Hx). simpl.
    destruct (decide (url = url')) as [<-|Hne].
    + right. exists (text resp). apply lookup_insert_eq.
    + left. apply lookup_insert_ne.
      intros E. apply cache_key_inj in E. congruence.
  - rewrite (fetch_page_miss_failure web url w cause Hs Hx). left. reflexivity.
Qed.

Lemma get_page_cache_key web url url' w :
  store (get_page web url w).2 !! cache_key url' = store w !! cache_key url'
  ∨ ∃ v, store (get_page web url w).2 !! cache_key url'
         = Some (Entry v (Some (clock (get_page web url w).2 + 10 * 1000)%N)).
Proof.
  assert (Hk : store (r_incr (count_key url) w).2 !! cache_key url'
               = store w !! cache_key url')
    by (apply r_incr_store_other, not_eq_sym, count_key_not_cache_key).
  destruct (get_page_world web url w) as [-> | ->]; [left; exact Hk|].
  destruct (fetch_page_cache_key web url url' (r_incr (count_key url) w).2)
    as [Hsame|[v Hnew]].
  - left. rewrite Hsame. exact Hk.
  - right. exists v. exact Hnew.
Qed.

Lemma flushed_well_kept t : well_kept (flushed t).
Proof.
  split.
  - intros url. exists 0%Z. split; [lia|reflexivity].
  - intros url e He. simpl in He. rewrite lookup_empty in He. discriminate.
Qed.

Lemma step_well_kept a w : well_kept w → well_kept (step w a).
Proof.
  intros [Hcount Hcache]. split.
  - intros url. destruct (Hcount url) as (n & Hn0 & Hn).
    rewrite (step_counter url a w n Hn). eexists. split; [|reflexivity].
    destruct (is_reset_of url a); [lia|].
    destruct (is_fetch_of url a); [destruct (n <? int64_max)%Z|]; lia.
  - intros url' e He.
    destruct a as [web url|url|url|ms]; cbn [step] in *.
    + pose proof (get_page_clock web url w) as Hclock.
      destruct (get_page_cache_key web url url' w) as [Hsame|[v Hnew]].
      * rewrite Hsame in He. destruct (Hcache url' e He) as (d & Hd & Hle).
        exists d. split; [exact Hd|lia].
      * rewrite Hnew in He. injection He as <-. eexists. split; [reflexivity|lia].
    + destruct (get_count_world url w) as [Hs Hc]. rewrite Hs in He. rewrite Hc.
      apply (Hcache url' e He).
    + rewrite reset_count_store in He.
      rewrite lookup_delete_ne in He by apply count_key_not_cache_key.
      apply (Hcache url' e He).
    + destruct (Hcache url' e He) as (d & Hd & Hle).
      exists d. split; [exact Hd|]. simpl. lia.
Qed.

Lemma run_well_kept l : ∀ w, well_kept w → well_kept (run l w).
Proof.
  induction l as [|a l IH]; intros w Hw; [exact Hw|].
  rewrite run_cons. apply IH, step_well_kept, Hw.
Qed.

(** X11.  Whatever a session does after a flush, the server stays in
    order: [get_count] returns a non-negative integer for every URL and
    never raises, and every cache entry in the keyspace carries a deadline
    at most ten seconds ahead, so nothing the module caches can outlive
    ten seconds. *)
Theorem sessions_keep_the_server_in_order t l url :
  (∃ n, (0 ≤ n)%Z ∧ (get_count url (run l (flushed t))).1 = Ok n)
  ∧ (∀ e,
       store (run l (flushed t)) !! cache_key url = Some e →
       ∃ d, expire_at e = Some d
            ∧ (d ≤ clock (run l (flushed t)) + 10 * 1000)%N).
Proof.
  destruct (run_well_kept l (flushed t) (flushed_well_kept t)) as [Hcount Hcache].
  split.
  - destruct (Hcount url) as (n & Hn0 & Hn). exists n. split; [exact Hn0|].
    rewrite (get_count_counter url n _ Hn). reflexivity.
  - intros e He. apply (Hcache url e He).
Qed.

Lemma sessions_keep_the_server_in_order_witness :
  store (run mixed_session (flushed 0)) !! cache_key example_url
  = Some (Entry "" (Some 33282%N))
  ∧ ∃ d, expire_at (Entry "" (Some 33282%N)) = Some d
         ∧ (d ≤ clock (run mixed_session (flushed 0)) + 10 * 1000)%N.
Proof.
  split; [reflexivity|].
  apply (sessions_keep_the_server_in_order 0 mixed_session example_url).
  reflexivity.
Defined.

(** *** The self-test, when it cannot pass, and what it leaves behind *)

Lemma main_passes_witness :
  (main web_hello garbled_counter).1 = Ok tt.
Proof.
  apply (main_passes web_hello garbled_counter (Response 200 "hello"));
    reflexivity.
Defined.

Lemma bind_raise {A B} (m : M A) (k : A → M B) w e w' :
  m w = (Raise e, w') → bind m k w = (Raise e, w').
Proof. intros E. unfold bind. rewrite E. reflexivity. Qed.

(** X13.  When the network fails for the test URL, the self-test does not
    end on a failed assertion: its first check passes, the first
    [get_page] raises the exception of the HTTP client, and the flushed
    server is left with that one call counted and nothing cached. *)
Theorem main_raises_when_the_fetch_fails web w cause :
  ending (web "http://google.com") = Failed cause →
  (main web w).1 = Raise (RequestException cause)
  ∧ store (main web w).2
    = <[count_key "http://google.com" := Entry "1" None]> ∅.
Proof.
  intros Hx. unfold main.
  set (url := "http://google.com") in *.
  erewrite bind_ok by reflexivity.
  erewrite bind_ok by (apply (get_count_counter url 0); reflexivity).
  erewrite bind_ok by reflexivity.
  erewrite bind_raise
    by (apply get_page_miss_failure with (n := 0%Z) (cause := cause);
        [reflexivity | reflexivity | reflexivity | exact Hx]).
  split; reflexivity.
Qed.

Lemma main_raises_when_the_fetch_fails_witness :
  (main web_timeout after_hello).1 = Raise (RequestException Timeout)
  ∧ store (main web_timeout after_hello).2
    = <[count_key "http://google.com" := Entry "1" None]> ∅.
Proof.
  apply (main_raises_when_the_fetch_fails web_timeout after_hello Timeout).
  reflexivity.
Defined.

Lemma bind_keeps {A B} (P : world → Prop) (m : M A) (k : A → M B) w :
  P (m w).2 → (∀ a w', P w' → P (k a w').2) → P (bind m k w).2.
Proof.
  intros Hm Hk. unfold bind. destruct (m w) as [[a|e] w']; simpl in *.
  - apply Hk, Hm.
  - exact Hm.
Qed.

Lemma py_assert_world condition w : (py_assert condition w).2 = w.
Proof. destruct condition; reflexivity. Qed.

(** X14.  The self-test starts with FLUSHALL and only ever writes the two
    keys of its test URL: whatever else the server held is gone when it
    ends, whether it passes, fails an assertion or raises. *)
Theorem main_wipes_the_server web w key :
  key ≠ count_key "http://google.com" →
  key ≠ cache_key "http://google.com" →
  store (main web w).2 !! key = None.
Proof.
  intros Hcount Hcache. unfold main.
  set (url := "http://google.com") in *.
  set (P := fun w' : world => store w' !! key = None).
  assert (Hget_count : ∀ w', P w' → P (get_count url w').2).
  { intros w' Hw'. unfold P. rewrite get_count_store. exact Hw'. }
  assert (Hget_page : ∀ w', P w' → P (get_page web url w').2).
  { intros w' Hw'. unfold P.
    rewrite get_page_store_frame by assumption. exact Hw'. }
  assert (Hassert : ∀ c w', P w' → P (py_assert c w').2).
  { intros c w' Hw'. rewrite py_assert_world. exact Hw'. }
  change (P ((_ <- r_flushall ;;
              initial_count <- get_count url ;;
              _ <- py_assert (initial_count =? 0)%Z ;;
              _ <- get_page web url ;;
              count_after_first <- get_count url ;;
              _ <- py_assert (count_after_first =? 1)%Z ;;
              _ <- get_page web url ;;
              count_after_second <- get_count url ;;
              _ <- py_assert (count_after_second =? 2)%Z ;;
              cached_content <- r_get (cache_key url) ;;
              _ <- py_assert (negb (is_none cached_content)) ;;
              _ <- time_sleep 11 ;;
              expired_content <- r_get (cache_key url) ;;
              _ <- py_assert (is_none expired_content) ;;
              ret tt) w).2).
  apply bind_keeps; [apply lookup_empty|]. intros _ w0 H0.
  apply bind_keeps; [apply Hget_count, H0|]. intros c0 w1 H1.
  apply bind_keeps; [apply Hassert, H1|]. intros _ w2 H2.
  apply bind_keeps; [apply Hget_page, H2|]. intros _ w3 H3.
  apply bind_keeps; [apply Hget_count, H3|]. intros c1 w4 H4.
  apply bind_keeps; [apply Hassert, H4|]. intros _ w5 H5.
  apply bind_keeps; [apply Hget_page, H5|]. intros _ w6 H6.
  apply bind_keeps; [apply Hget_count, H6|]. intros c2 w7 H7.
  apply bind_keeps; [apply Hassert, H7|]. intros _ w8 H8.
  apply bind_keeps; [exact H8|]. intros cached w9 H9.
  apply bind_keeps; [apply Hassert, H9|]. intros _ w10 H10.
  apply bind_keeps; [exact H10|]. intros _ w11 H11.
  apply bind_keeps; [exact H11|]. intros expired_content w12 H12.
  apply bind_keeps; [apply Hassert, H12|]. intros _ w13 H13.
  exact H13.
Qed.

Lemma main_wipes_the_server_witness :
  store two_urls !! cache_key "http://other.test"
  = Some (Entry "Not Found" (Some 10200%N))
  ∧ store (main web_hello two_urls).2 !! cache_key "http://other.test" = None.
Proof.
  split; [reflexivity|].
  apply (main_wipes_the_server web_hello two_urls (cache_key "http://other.test"));
    discriminate.
Defined.

(** *** Bytes that are not text *)

(** X15.  A cached value that is not valid UTF-8 makes the call raise
    [UnicodeDecodeError] after the counter, below the ceiling of the
    server, was incremented; no HTTP request is sent and the entry stays
    where it is, for the next call to meet it again. *)
Theorem undecodable_entry_raises web url w n e :
  counter w url = Some n →
  (n < int64_max)%Z →
  cache_entry w url = Some e →
  truthy (value e) = true →
  utf8_valid (value e) = false →
  (get_page web url w).1 = Raise UnicodeDecodeError
  ∧ issued w (get_page web url w).2
           [EIncr (count_key url); EGet (cache_key url)]
  ∧ cache_entry (get_page web url w).2 url = Some e
  ∧ counter (get_page web url w).2 url = Some (n + 1)%Z.
Proof.
  intros Hn Hroom He Ht Hu.
  pose proof (get_page_counter_next web url w n Hn Hroom) as Hnext.
  destruct (get_page_keeps_served web url w (value e)
              (served_hit w url e He Ht)) as [Hk Hc].
  split; [|split; [|split; [|exact Hnext]]].
  - rewrite (nonempty_entry_is_served web url w n e Hn Hroom He Ht), Hu.
    reflexivity.
  - rewrite (nonempty_entry_is_served web url w n e Hn Hroom He Ht).
    reflexivity.
  - rewrite (cache_entry_same w _ url Hk Hc). exact He.
Qed.

Lemma undecodable_entry_raises_witness :
  (get_page web_hello example_url (sleep 4000 poisoned)).1
  = Raise UnicodeDecodeError
  ∧ issued (sleep 4000 poisoned)
           (get_page web_hello example_url (sleep 4000 poisoned)).2
           [EIncr (count_key example_url); EGet (cache_key example_url)]
  ∧ cache_entry (get_page web_hello example_url (sleep 4000 poisoned)).2
                example_url
    = Some (Entry (bytes_of [255%N]) (Some 5000%N))
  ∧ counter (get_page web_hello example_url (sleep 4000 poisoned)).2
            example_url
    = Some (0 + 1)%Z.
Proof.
  apply (undecodable_entry_raises
           web_hello example_url (sleep 4000 poisoned) 0
           (Entry (bytes_of [255%N]) (Some 5000%N)));
    reflexivity.
Defined.

(** *** Traffic of a session *)

Lemma how_many_app p evs evs' :
  how_many p (evs ++ evs') = how_many p evs + how_many p evs'.
Proof. induction evs as [|ev evs IH]; simpl; [reflexivity|]. rewrite IH. lia. Qed.

Lemma step_traffic a w :
  ∃ evs,
    issued w (step w a) evs
    ∧ how_many is_incr evs = calls [a]
    ∧ (how_many is_setex evs ≤ how_many is_http_get evs)%nat
    ∧ (how_many is_http_get evs ≤ calls [a])%nat.
Proof.
  destruct a as [web url|url|url|ms]; cbn [step].
  - destruct (get_page_shapes web url w) as (evs & Hi & Hshape).
    exists (EIncr (count_key url) :: evs). split; [exact Hi|].
    destruct Hshape as [->|[->|[->|[body ->]]]]; simpl; lia.
  - exists [EGet (count_key url)]. split; [|simpl; lia].
    unfold issued, get_count, bind, r_get, py_int. simpl.
    destruct (live (clock w) (store w) (count_key url)) as [e|]; simpl;
      [|reflexivity].
    destruct (truthy (value e)); [|reflexivity].
    destruct (int_literal (value e)); reflexivity.
  - exists [EDelete (count_key url)]. split; [reflexivity|simpl; lia].
  - exists []. split; [|simpl; lia].
    unfold issued, sleep. simpl. rewrite app_nil_r. reflexivity.
Qed.

Lemma calls_cons a l : calls (a :: l) = calls [a] + calls l.
Proof. destruct a; reflexivity. Qed.

(** X16.  Over a whole session the module sends exactly one INCR per call
    of [get_page], at most one HTTP request per call, and no SETEX that
    does not follow an HTTP request of its own: caching never adds
    requests, and reading or resetting counters sends none. *)
Theorem session_traffic l : ∀ w,
  ∃ evs,
    issued w (run l w) evs
    ∧ how_many is_incr evs = calls l
    ∧ (how_many is_setex evs ≤ how_many is_http_get evs)%nat
    ∧ (how_many is_http_get evs ≤ calls l)%nat.
Proof.
  induction l as [|a l IH]; intros w.
  - exists []. split; [|simpl; lia].
    unfold issued. simpl. rewrite app_nil_r. reflexivity.
  - rewrite run_cons, calls_cons.
    destruct (step_traffic a w) as (evs & Hi & Hincr & Hsetex & Hhttp).
    destruct (IH (step w a)) as (evs' & Hi' & Hincr' & Hsetex' & Hhttp').
    exists (evs ++ evs'). split.
    + unfold issued in *. rewrite Hi', Hi, <- app_assoc. reflexivity.
    + rewrite !how_many_app. lia.
Qed.
